(** * ctkCmdLineModuleProcessTask: the local-process task and its watcher

    A shallow embedding of
    [Libs/CommandLineModules/Backend/LocalProcess/ctkCmdLineModuleProcessTask.cpp]:
    the progress normaliser of [ctkCmdLineModuleProcessWatcher]
    ([updateProgress], [incrementProgress] and the filter slots), its
    signal-based pause, resume and cancel slots, and
    [ctkCmdLineModuleProcessTask::start] / [run].

    C++ [float] is IEEE 754 binary32, taken from the parametric
    specification [SpecFloat] at precision 24 and [emax = 128]; [int] is a
    32-bit two's complement integer carried in [Z]. *)

From Stdlib Require Import ZArith QArith Qround List String Bool Lia.
From Stdlib Require Import Floats.SpecFloat.
Import ListNotations.

Local Open Scope Z_scope.

(** ** C++ scalars *)

Module Int.

Definition INT_MIN : Z := - 2 ^ 31.
Definition INT_MAX : Z := 2 ^ 31 - 1.

Definition in_range (z : Z) : bool := (INT_MIN <=? z) && (z <=? INT_MAX).

(** Two's complement wrap-around of a mathematical integer into [int]. *)
Definition wrap (z : Z) : Z := (z + 2 ^ 31) mod 2 ^ 32 - 2 ^ 31.

End Int.

Module Float32.

Definition prec : Z := 24.
Definition emax : Z := 128.

Definition float : Type := spec_float.

(** A [spec_float] is a binary32 datum when its mantissa and exponent are
    the canonical ones of the format. *)
Definition valid (f : float) : bool := valid_binary prec emax f.

Definition mul (x y : float) : float := SFmul prec emax x y.
Definition leb (x y : float) : bool := SFleb x y.

Definition of_Z (z : Z) : float := binary_normalize prec emax z 0 false.

Definition zero : float := S754_zero false.
Definition one : float := Eval cbv in of_Z 1.
(** The literal [1000.0f]. *)
Definition f1000 : float := Eval cbv in of_Z 1000.

(** The dyadic fraction [n / 2^k] as a binary32 number (rounded to
    nearest even when it does not fit). *)
Definition dyadic (n : Z) (k : Z) : float := binary_normalize prec emax n (- k) false.

(** Integer part of a finite number, towards zero; infinities and NaN
    have none. *)
Definition trunc (f : float) : option Z :=
  match f with
  | S754_zero _ => Some 0
  | S754_finite s m e => Some (cond_Zopp s (Z.shiftl (Zpos m) e))
  | S754_infinity _ | S754_nan => None
  end.

(** [static_cast<int>(f)]: the fractional part is discarded; the
    behaviour is undefined ([None]) when the truncated value is not
    representable in [int]. *)
Definition static_cast_int (f : float) : option Z :=
  match trunc f with
  | Some z => if Int.in_range z then Some z else None
  | None => None
  end.

(** The rational number a finite binary32 datum stands for. *)
Definition to_Q (f : float) : option Q :=
  match f with
  | S754_zero _ => Some (0 # 1)
  | S754_finite s m e =>
      Some match e with
           | Zneg p => cond_Zopp s (Zpos m) # (2 ^ p)
           | _ => cond_Zopp s (Zpos m * 2 ^ e) # 1
           end
  | S754_infinity _ | S754_nan => None
  end.

(** [0.0f <= f && f <= 1.0f] *)
Definition in_unit_interval (f : float) : bool := leb zero f && leb f one.

End Float32.

(** ** Collaborators of the task *)

(** [QProcess::ProcessError]; [UnknownError] is what [QProcess::error()]
    returns when no error occurred. *)
Inductive ProcessError : Type :=
| FailedToStart | Crashed | Timedout | ReadError | WriteError | UnknownError.

Definition ProcessError_eqb (a b : ProcessError) : bool :=
  match a, b with
  | FailedToStart, FailedToStart | Crashed, Crashed | Timedout, Timedout
  | ReadError, ReadError | WriteError, WriteError | UnknownError, UnknownError => true
  | _, _ => false
  end.

(** What the task reads from its [QProcess] once the local event loop has
    quit. [standardError] is the unread content of the error channel:
    [readAllStandardError] hands it over and leaves the channel empty. *)
Record QProcess : Type := {
  error : ProcessError;
  exitCode : Z;
  errorString : string;
  standardError : string
}.

(** The arguments of the [ctkCmdLineModuleRunException] constructor. *)
Record ctkCmdLineModuleRunException : Type := {
  re_location : string;
  re_errorCode : Z;
  re_errorString : string
}.

Inductive Signal : Type := SIGSTOP | SIGCONT.

(** Modelled from the spec: the future interface the task derives from
    ([ctkCmdLineModuleFutureInterface], declared outside these sources).
    It is the task handle of the specification: lifecycle flags, the
    cancel and pause requests, the progress range, the progress value with
    its status text, and the terminal exception if any. *)
Record FutureInterface : Type := {
  f_canCancel : bool;
  f_canPause : bool;
  f_started : bool;
  f_finished : bool;
  f_canceled : bool;
  f_paused : bool;
  f_progressMinimum : Z;
  f_progressMaximum : Z;
  f_progressValue : Z;
  f_progressText : string;
  f_exception : option ctkCmdLineModuleRunException
}.

(** The members of [ctkCmdLineModuleProcessWatcher] that its slots write. *)
Record Watcher : Type := {
  w_location : string;
  processPaused : bool;
  progressValue : Z
}.

(** The log of a run: the calls the code makes on the future interface,
    on the thread pool, on the process once it is set up ([start],
    [terminate], [readAllStandardError]), on the operating system
    ([::kill]), on the polling timer and on [qDebug], in program order.
    The wiring that precedes them ([process.setReadChannel], the
    [QObject::connect] calls and [futureWatcher.setFuture]) is not logged:
    [dispatch] stands for the connections. *)
Inductive Call : Type :=
| Call_setRunnable
| Call_reportStarted
| Call_reportFinished
| Call_reportException (e : ctkCmdLineModuleRunException)
| Call_setProgressRange (minimum maximum : Z)
| Call_setProgressValue (v : Z)
| Call_setProgressValueAndText (v : Z) (text : string)
| Call_setPaused (b : bool)
| Call_threadPoolStart (priority : Z)
| Call_processStart (program : string) (arguments : list string)
| Call_processTerminate
| Call_readAllStandardError
| Call_kill (sig : Signal)
| Call_timerStart (msec : Z)
| Call_qDebug (parts : list string).

(** The task object ([location], [args] and its future-interface base),
    the [QProcess] and watcher that live on the stack of [run], and the
    log of calls made so far. *)
Record World : Type := {
  location : string;
  args : list string;
  future : FutureInterface;
  process : QProcess;
  watcher : Watcher;
  calls : list Call
}.

Definition with_future (g : FutureInterface -> FutureInterface) (w : World) : World :=
  {| location := location w; args := args w; future := g (future w);
     process := process w; watcher := watcher w; calls := calls w |}.

Definition with_process (g : QProcess -> QProcess) (w : World) : World :=
  {| location := location w; args := args w; future := future w;
     process := g (process w); watcher := watcher w; calls := calls w |}.

Definition with_watcher (g : Watcher -> Watcher) (w : World) : World :=
  {| location := location w; args := args w; future := future w;
     process := process w; watcher := g (watcher w); calls := calls w |}.

Definition with_calls (g : list Call -> list Call) (w : World) : World :=
  {| location := location w; args := args w; future := future w;
     process := process w; watcher := watcher w; calls := g (calls w) |}.

(** ** A state monad with undefined behaviour *)

Definition M (A : Type) : Type := World -> option (A * World).

Definition ret {A : Type} (a : A) : M A := fun w => Some (a, w).

Definition bind {A B : Type} (m : M A) (k : A -> M B) : M B :=
  fun w => match m w with
           | Some (a, w') => k a w'
           | None => None
           end.

Definition gets {A : Type} (g : World -> A) : M A := fun w => Some (g w, w).
Definition modify (g : World -> World) : M unit := fun w => Some (tt, g w).
Definition lift {A : Type} (o : option A) : M A :=
  fun w => match o with Some a => Some (a, w) | None => None end.
Definition when (b : bool) (m : M unit) : M unit := if b then m else ret tt.

Declare Scope monad_scope.
Delimit Scope monad_scope with monad.
Notation "x <- m ;; k" := (bind m (fun x => k))
  (at level 61, m at next level, right associativity) : monad_scope.
Notation "m ;; k" := (bind m (fun _ => k))
  (at level 61, right associativity) : monad_scope.
Local Open Scope monad_scope.

Definition emit (c : Call) : M unit := modify (with_calls (fun l => l ++ [c])).

(** ** The future interface *)

Module Future.

(** Modelled from the spec: a task handle as it is before submission
    (progress 0, nothing requested, not started). *)
Definition initial : FutureInterface :=
  {| f_canCancel := false; f_canPause := false;
     f_started := false; f_finished := false;
     f_canceled := false; f_paused := false;
     f_progressMinimum := 0; f_progressMaximum := 0;
     f_progressValue := 0; f_progressText := EmptyString;
     f_exception := None |}.

Definition set_canCancel (b : bool) (f : FutureInterface) : FutureInterface :=
  {| f_canCancel := b; f_canPause := f_canPause f;
     f_started := f_started f; f_finished := f_finished f;
     f_canceled := f_canceled f; f_paused := f_paused f;
     f_progressMinimum := f_progressMinimum f; f_progressMaximum := f_progressMaximum f;
     f_progressValue := f_progressValue f; f_progressText := f_progressText f;
     f_exception := f_exception f |}.

Definition set_canPause (b : bool) (f : FutureInterface) : FutureInterface :=
  {| f_canCancel := f_canCancel f; f_canPause := b;
     f_started := f_started f; f_finished := f_finished f;
     f_canceled := f_canceled f; f_paused := f_paused f;
     f_progressMinimum := f_progressMinimum f; f_progressMaximum := f_progressMaximum f;
     f_progressValue := f_progressValue f; f_progressText := f_progressText f;
     f_exception := f_exception f |}.

Definition set_started (b : bool) (f : FutureInterface) : FutureInterface :=
  {| f_canCancel := f_canCancel f; f_canPause := f_canPause f;
     f_started := b; f_finished := f_finished f;
     f_canceled := f_canceled f; f_paused := f_paused f;
     f_progressMinimum := f_progressMinimum f; f_progressMaximum := f_progressMaximum f;
     f_progressValue := f_progressValue f; f_progressText := f_progressText f;
     f_exception := f_exception f |}.

Definition set_finished (b : bool) (f : FutureInterface) : FutureInterface :=
  {| f_canCancel := f_canCancel f; f_canPause := f_canPause f;
     f_started := f_started f; f_finished := b;
     f_canceled := f_canceled f; f_paused := f_paused f;
     f_progressMinimum := f_progressMinimum f; f_progressMaximum := f_progressMaximum f;
     f_progressValue := f_progressValue f; f_progressText := f_progressText f;
     f_exception := f_exception f |}.

Definition set_canceled (b : bool) (f : FutureInterface) : FutureInterface :=
  {| f_canCancel := f_canCancel f; f_canPause := f_canPause f;
     f_started := f_started f; f_finished := f_finished f;
     f_canceled := b; f_paused := f_paused f;
     f_progressMinimum := f_progressMinimum f; f_progressMaximum := f_progressMaximum f;
     f_progressValue := f_progressValue f; f_progressText := f_progressText f;
     f_exception := f_exception f |}.

Definition set_paused (b : bool) (f : FutureInterface) : FutureInterface :=
  {| f_canCancel := f_canCancel f; f_canPause := f_canPause f;
     f_started := f_started f; f_finished := f_finished f;
     f_canceled := f_canceled f; f_paused := b;
     f_progressMinimum := f_progressMinimum f; f_progressMaximum := f_progressMaximum f;
     f_progressValue := f_progressValue f; f_progressText := f_progressText f;
     f_exception := f_exception f |}.

Definition set_range (lo hi : Z) (f : FutureInterface) : FutureInterface :=
  {| f_canCancel := f_canCancel f; f_canPause := f_canPause f;
     f_started := f_started f; f_finished := f_finished f;
     f_canceled := f_canceled f; f_paused := f_paused f;
     f_progressMinimum := lo; f_progressMaximum := hi;
     f_progressValue := f_progressValue f; f_progressText := f_progressText f;
     f_exception := f_exception f |}.

Definition set_progress (v : Z) (text : string) (f : FutureInterface) : FutureInterface :=
  {| f_canCancel := f_canCancel f; f_canPause := f_canPause f;
     f_started := f_started f; f_finished := f_finished f;
     f_canceled := f_canceled f; f_paused := f_paused f;
     f_progressMinimum := f_progressMinimum f; f_progressMaximum := f_progressMaximum f;
     f_progressValue := v; f_progressText := text;
     f_exception := f_exception f |}.

Definition set_exception (e : ctkCmdLineModuleRunException) (f : FutureInterface)
  : FutureInterface :=
  {| f_canCancel := f_canCancel f; f_canPause := f_canPause f;
     f_started := f_started f; f_finished := f_finished f;
     f_canceled := f_canceled f; f_paused := f_paused f;
     f_progressMinimum := f_progressMinimum f; f_progressMaximum := f_progressMaximum f;
     f_progressValue := f_progressValue f; f_progressText := f_progressText f;
     f_exception := Some e |}.

(** Modelled from the spec: the states of the task handle (section 4.3).
    A handle is terminal once finished has been reported; it is then
    [Failed] when an exception was delivered, [Canceled] when
    cancellation was requested, and [Completed] otherwise. *)
Inductive HandleState : Type :=
| Pending | Running | Paused | Completed | Failed | Canceled.

Definition state (f : FutureInterface) : HandleState :=
  if f_finished f then
    match f_exception f with
    | Some _ => Failed
    | None => if f_canceled f then Canceled else Completed
    end
  else if negb (f_started f) then Pending
  else if f_paused f then Paused
  else Running.

End Future.

(** Modelled from the spec: the operations of the future interface the
    code calls ([ctkCmdLineModuleFutureInterface], declared outside these
    sources). Each one is logged and stores its argument in the handle:
    the progress setters set the value (and the status text, which
    [setProgressValue] leaves empty), [reportException] delivers the
    terminal exception, [reportFinished] is the terminal transition. *)
Definition isCanceled : M bool := gets (fun w => f_canceled (future w)).
Definition isPaused : M bool := gets (fun w => f_paused (future w)).

Definition reportStarted : M unit :=
  emit Call_reportStarted ;; modify (with_future (Future.set_started true)).

Definition reportFinished : M unit :=
  emit Call_reportFinished ;; modify (with_future (Future.set_finished true)).

Definition reportException (e : ctkCmdLineModuleRunException) : M unit :=
  emit (Call_reportException e) ;; modify (with_future (Future.set_exception e)).

Definition setProgressRange (minimum maximum : Z) : M unit :=
  emit (Call_setProgressRange minimum maximum) ;;
  modify (with_future (Future.set_range minimum maximum)).

Definition setProgressValue (v : Z) : M unit :=
  emit (Call_setProgressValue v) ;;
  modify (with_future (Future.set_progress v EmptyString)).

Definition setProgressValueAndText (v : Z) (text : string) : M unit :=
  emit (Call_setProgressValueAndText v text) ;;
  modify (with_future (Future.set_progress v text)).

Definition setPaused (b : bool) : M unit :=
  emit (Call_setPaused b) ;; modify (with_future (Future.set_paused b)).

(** ** QProcess and the operating system *)

Definition process_start (program : string) (arguments : list string) : M unit :=
  emit (Call_processStart program arguments).

Definition process_terminate : M unit := emit Call_processTerminate.

Definition process_error : M ProcessError := gets (fun w => error (process w)).
Definition process_exitCode : M Z := gets (fun w => exitCode (process w)).
Definition process_errorString : M string := gets (fun w => errorString (process w)).

(** [QProcess::readAllStandardError()] returns all data available on the
    error channel and removes it from the channel. *)
Definition readAllStandardError : M string :=
  emit Call_readAllStandardError ;;
  text <- gets (fun w => standardError (process w)) ;;
  modify (with_process (fun p =>
    {| error := error p; exitCode := exitCode p;
       errorString := errorString p; standardError := EmptyString |})) ;;
  ret text.

(** [::kill(pid, sig)]: the signal is sent, and the operating system
    answers with the return code [rc] (0 on success, -1 on failure). *)
Definition kill (sig : Signal) (rc : Z) : M Z := emit (Call_kill sig) ;; ret rc.

Definition qDebug (parts : list string) : M unit := emit (Call_qDebug parts).

(** ** ctkCmdLineModuleProcessWatcher *)

Definition get_progressValue : M Z := gets (fun w => progressValue (watcher w)).
Definition set_progressValue (v : Z) : M unit :=
  modify (with_watcher (fun x =>
    {| w_location := w_location x; processPaused := processPaused x; progressValue := v |})).

Definition get_processPaused : M bool := gets (fun w => processPaused (watcher w)).
Definition set_processPaused (b : bool) : M unit :=
  modify (with_watcher (fun x =>
    {| w_location := w_location x; processPaused := b; progressValue := progressValue x |})).

(** Modelled from the spec: what the holder of the future may ask of the
    handle from another thread. [cancel()] sets cancel-requested; a pause
    or resume request sets or clears pause-requested. *)
Inductive Request : Type :=
| Req_cancel
| Req_setPaused (b : bool).

Definition request (r : Request) : M unit :=
  match r with
  | Req_cancel => modify (with_future (Future.set_canceled true))
  | Req_setPaused b => modify (with_future (Future.set_paused b))
  end.

Fixpoint requests (rs : list Request) : M unit :=
  match rs with
  | [] => ret tt
  | r :: rest => request r ;; requests rest
  end.

(** What the local event loop of [run] delivers while the process is
    alive: the four signals of the XML progress watcher, the [canceled]
    and [resumed] signals of the future watcher, the time-out of the
    pause-polling timer, and the requests the holder of the future makes
    meanwhile. The two events that end in [::kill] carry the
    return code the operating system will give. *)
Inductive LoopEvent : Type :=
| Sig_filterStarted (name comment : string)
| Sig_filterProgress (progress : Float32.float)
| Sig_filterFinished (name : string)
| Sig_filterXmlError (message : string)
| Sig_canceled
| Sig_resumed (kill_rc : Z)
| Sig_pollPauseTimeout (kill_rc : Z)
| Ev_request (r : Request).

Section Platform.

(** Whether the code is compiled with [Q_OS_UNIX] defined. *)
Variable Q_OS_UNIX : bool.

(** The constructor: [processPaused(false)], [progressValue(0)], the
    progress range, and under [Q_OS_UNIX] the polling timer. *)
Definition Watcher_new : M unit :=
  loc <- gets location ;;
  modify (with_watcher (fun _ =>
    {| w_location := loc; processPaused := false; progressValue := 0 |})) ;;
  setProgressRange 0 1000 ;;
  when Q_OS_UNIX (emit (Call_timerStart 500)).

(** [progressValue = static_cast<int>(progress * 1000.0f)], then the two
    range tests in the order of the source. *)
Definition updateProgress (progress : Float32.float) : M Z :=
  v <- lift (Float32.static_cast_int (Float32.mul progress Float32.f1000)) ;;
  set_progressValue v ;;
  v <- get_progressValue ;;
  when (v <? 1) (set_progressValue 1) ;;
  v <- get_progressValue ;;
  when (v >? 999) (set_progressValue 999) ;;
  get_progressValue.

(** [if (++progressValue > 999) progressValue = 999; return progressValue;] *)
Definition incrementProgress : M Z :=
  v <- get_progressValue ;;
  set_progressValue (Int.wrap (v + 1)) ;;
  v <- get_progressValue ;;
  when (v >? 999) (set_progressValue 999) ;;
  get_progressValue.

Definition filterStarted (name comment : string) : M unit :=
  v <- incrementProgress ;;
  setProgressValueAndText v name.

Definition filterProgress (progress : Float32.float) : M unit :=
  v <- updateProgress progress ;;
  setProgressValue v.

Definition filterFinished (name : string) : M unit :=
  v <- incrementProgress ;;
  setProgressValueAndText v ("Finished: " ++ name).

(** The pieces streamed into [qDebug().nospace()]. *)
Definition filterXmlError (message : string) : M unit :=
  loc <- gets (fun w => w_location (watcher w)) ;;
  qDebug ["[Module "; loc; "]: "; message]%string.

(** [pauseProcess]: the early return, then under [Q_OS_UNIX] the
    [SIGSTOP] and the branch on the return code of [::kill]. *)
Definition pauseProcess (kill_rc : Z) : M unit :=
  pp <- get_processPaused ;;
  p <- isPaused ;;
  if pp || negb p then ret tt
  else if Q_OS_UNIX then
    rc <- kill SIGSTOP kill_rc ;;
    if negb (rc =? 0) then setPaused false
    else set_processPaused true
  else ret tt.

(** [resumeProcess]: the early return, then under [Q_OS_UNIX] the
    [SIGCONT] and the branch on the return code of [::kill]. *)
Definition resumeProcess (kill_rc : Z) : M unit :=
  pp <- get_processPaused ;;
  if negb pp then ret tt
  else if Q_OS_UNIX then
    rc <- kill SIGCONT kill_rc ;;
    if negb (rc =? 0) then setPaused true
    else set_processPaused false
  else ret tt.

Definition cancelProcess : M unit := process_terminate.

(** Each signal runs the slot the constructor connected it to; the
    [resumed] signal and the polling timer are connected only under
    [Q_OS_UNIX]. *)
Definition dispatch (ev : LoopEvent) : M unit :=
  match ev with
  | Sig_filterStarted name comment => filterStarted name comment
  | Sig_filterProgress progress => filterProgress progress
  | Sig_filterFinished name => filterFinished name
  | Sig_filterXmlError message => filterXmlError message
  | Sig_canceled => cancelProcess
  | Sig_resumed rc => if Q_OS_UNIX then resumeProcess rc else ret tt
  | Sig_pollPauseTimeout rc => if Q_OS_UNIX then pauseProcess rc else ret tt
  | Ev_request r => request r
  end.

(** [localLoop.exec()]: the events are delivered in order until the
    process signals [finished] or [error]; from then on the process
    object shows the outcome. *)
Fixpoint localLoop_exec (events : list LoopEvent) (outcome : QProcess) : M unit :=
  match events with
  | [] => modify (with_process (fun _ => outcome))
  | ev :: rest => dispatch ev ;; localLoop_exec rest outcome
  end.

(** ** ctkCmdLineModuleProcessTask *)

(** The constructor: [setCanCancel(true)] and, under [Q_OS_UNIX],
    [setCanPause(true)], on a handle that is otherwise as new; the process
    and watcher slots are filled in by [run]. *)
Definition ProcessTask_new (loc : string) (arguments : list string) : World :=
  {| location := loc; args := arguments;
     future := (if Q_OS_UNIX then Future.set_canPause true else fun f => f)
                 (Future.set_canCancel true Future.initial);
     process := {| error := UnknownError; exitCode := 0;
                   errorString := EmptyString; standardError := EmptyString |};
     watcher := {| w_location := EmptyString; processPaused := false; progressValue := 0 |};
     calls := [] |}.

(** [start()]: [setRunnable], [reportStarted], and the hand-over to the
    global thread pool at priority 0. *)
Definition start : M unit :=
  emit Call_setRunnable ;;
  reportStarted ;;
  emit (Call_threadPoolStart 0).

(** [run()]. [events] is what the local loop delivers before it quits and
    [outcome] what the process object shows afterwards. Setting the read
    channel of the process and connecting its [finished] and [error]
    signals to the local loop, which the source does before
    [process.start], leave no entry in the log. *)
Definition run (events : list LoopEvent) (outcome : QProcess) : M unit :=
  canceled <- isCanceled ;;
  if canceled then reportFinished
  else
    loc <- gets location ;;
    arguments <- gets args ;;
    process_start loc arguments ;;
    Watcher_new ;;
    localLoop_exec events outcome ;;
    err <- process_error ;;
    (if negb (ProcessError_eqb err UnknownError) then
       code <- process_exitCode ;;
       text <- process_errorString ;;
       reportException {| re_location := loc; re_errorCode := code; re_errorString := text |}
     else
       code <- process_exitCode ;;
       if negb (code =? 0) then
         code <- process_exitCode ;;
         text <- readAllStandardError ;;
         reportException {| re_location := loc; re_errorCode := code; re_errorString := text |}
       else ret tt) ;;
    text <- readAllStandardError ;;
    setProgressValueAndText 1000 text ;;
    reportFinished.

(** A task from submission to its terminal report: [start()] hands the
    task to the thread pool, which later calls [run()]; [before_run] are
    the requests made on the future in between. *)
Definition execution (before_run : list Request)
           (events : list LoopEvent) (outcome : QProcess) : M unit :=
  start ;;
  requests before_run ;;
  run events outcome.

End Platform.


(** ** Reading the log *)

Definition progress_report (c : Call) : option Z :=
  match c with
  | Call_setProgressValue v | Call_setProgressValueAndText v _ => Some v
  | _ => None
  end.

(** The progress values reported to the handle, in order. *)
Fixpoint progress_reports (l : list Call) : list Z :=
  match l with
  | [] => []
  | c :: rest =>
      match progress_report c with
      | Some v => v :: progress_reports rest
      | None => progress_reports rest
      end
  end.

Definition is_reportFinished (c : Call) : bool :=
  match c with Call_reportFinished => true | _ => false end.

Definition is_reportException (c : Call) : bool :=
  match c with Call_reportException _ => true | _ => false end.

Definition is_processStart (c : Call) : bool :=
  match c with Call_processStart _ _ => true | _ => false end.

Definition is_kill (c : Call) : bool :=
  match c with Call_kill _ => true | _ => false end.

Definition is_qDebug (c : Call) : bool :=
  match c with Call_qDebug _ => true | _ => false end.

Definition count (p : Call -> bool) (l : list Call) : nat := List.length (filter p l).

(** ** What the specification says of the normaliser *)

Definition clamp (lo hi v : Z) : Z := Z.max lo (Z.min hi v).

(** The integer part of a rational, towards zero. *)
Definition integer_part (q : Q) : Z := if Qle_bool 0 q then Qfloor q else Qceiling q.

(** Rounding to the nearest integer, halves upwards. *)
Definition round (q : Q) : Z := Qfloor (q + (1 # 2)).

(** [Progress{fraction}] as the specification normalises it:
    [clamp(round(fraction * 1000), 1, 999)]. *)
Definition spec_normalize (fraction : Q) : Z := clamp 1 999 (round (fraction * (1000 # 1))).

(** Every [Progress] event of the list converts to [int] without
    undefined behaviour. *)
Definition event_defined (ev : LoopEvent) : bool :=
  match ev with
  | Sig_filterProgress f =>
      match Float32.static_cast_int (Float32.mul f Float32.f1000) with
      | Some _ => true
      | None => false
      end
  | _ => true
  end.

Definition set_counter (v : Z) (w : World) : World :=
  with_watcher (fun x =>
    {| w_location := w_location x; processPaused := processPaused x; progressValue := v |}) w.

Definition set_processPaused_in (b : bool) (w : World) : World :=
  with_watcher (fun x =>
    {| w_location := w_location x; processPaused := b; progressValue := progressValue x |}) w.

Definition log (l : list Call) (w : World) : World := with_calls (fun l0 => l0 ++ l) w.

(** The handle after a progress report with a status text. *)
Definition report (v : Z) (text : string) (w : World) : World :=
  with_future (Future.set_progress v text) (log [Call_setProgressValueAndText v text] w).

(** The calls a slot of the watcher may make while the loop runs; a
    progress report among them carries a value of [[1,999]]. *)
Definition loop_call (c : Call) : bool :=
  match c with
  | Call_setProgressValue v | Call_setProgressValueAndText v _ => (1 <=? v) && (v <=? 999)
  | Call_setPaused _ | Call_processTerminate | Call_kill _ | Call_qDebug _ => true
  | _ => false
  end.

(** The counter of the watcher is within [[0,999]]. *)
Definition counter_ok (w : World) : Prop := 0 <= progressValue (watcher w) <= 999.

(** A task in the running state: its watcher is at work and the handle
    shows the watcher's counter. *)
Definition running (w : World) : Prop :=
  counter_ok w /\ f_progressValue (future w) = progressValue (watcher w).

(** The exception [run] reports for an outcome of the process, if any. *)
Definition run_exception (loc : string) (outcome : QProcess)
  : option ctkCmdLineModuleRunException :=
  if negb (ProcessError_eqb (error outcome) UnknownError) then
    Some {| re_location := loc; re_errorCode := exitCode outcome;
            re_errorString := errorString outcome |}
  else if negb (exitCode outcome =? 0) then
    Some {| re_location := loc; re_errorCode := exitCode outcome;
            re_errorString := standardError outcome |}
  else None.

(** The status text that goes with the final progress value 1000: what is
    still unread on the error channel at that point. *)
Definition final_text (outcome : QProcess) : string :=
  if negb (ProcessError_eqb (error outcome) UnknownError) then standardError outcome
  else if negb (exitCode outcome =? 0) then EmptyString
  else standardError outcome.

(** The calls of [run] once the local loop has quit. *)
Definition epilogue_calls (loc : string) (outcome : QProcess) : list Call :=
  (if negb (ProcessError_eqb (error outcome) UnknownError) then
     [Call_reportException {| re_location := loc; re_errorCode := exitCode outcome;
                              re_errorString := errorString outcome |}]
   else if negb (exitCode outcome =? 0) then
     [Call_readAllStandardError;
      Call_reportException {| re_location := loc; re_errorCode := exitCode outcome;
                              re_errorString := standardError outcome |}]
   else [])
  ++ [Call_readAllStandardError;
      Call_setProgressValueAndText 1000 (final_text outcome);
      Call_reportFinished].

(** The calls of [run] before the local loop is entered. *)
Definition prologue_calls (unix : bool) (loc : string) (arguments : list string)
  : list Call :=
  [Call_processStart loc arguments; Call_setProgressRange 0 1000]
  ++ (if unix then [Call_timerStart 500] else []).

(** What the slots leave alone, and how the log grows. *)
Definition loop_step (w w' : World) : Prop :=
  location w' = location w /\
  args w' = args w /\
  process w' = process w /\
  w_location (watcher w') = w_location (watcher w) /\
  f_started (future w') = f_started (future w) /\
  f_finished (future w') = f_finished (future w) /\
  f_exception (future w') = f_exception (future w) /\
  exists l, calls w' = calls w ++ l /\ forallb loop_call l = true.


(** The exceptions reported to the handle, in order. *)
Fixpoint reported_exceptions (l : list Call) : list ctkCmdLineModuleRunException :=
  match l with
  | [] => []
  | Call_reportException e :: rest => e :: reported_exceptions rest
  | _ :: rest => reported_exceptions rest
  end.

Definition is_cancel_request (r : Request) : bool :=
  match r with Req_cancel => true | Req_setPaused _ => false end.

Definition is_started_or_finished (ev : LoopEvent) : bool :=
  match ev with
  | Sig_filterStarted _ _ | Sig_filterFinished _ => true
  | _ => false
  end.

(** ** Sample tasks and outcomes *)

Definition fresh_task : World := ProcessTask_new true "module" ["--flag"%string].

(** The fraction [1/512], exact in binary32. *)
Definition fraction_1_512 : Float32.float := Float32.dyadic 1 9.

(** A watcher that has just been constructed. *)
Definition fresh_watcher : World :=
  Eval cbv in
    match Watcher_new true fresh_task with
    | Some (_, w) => w
    | None => fresh_task
    end.

(** The watcher after [Progress{1/2}]. *)
Definition half_done : World :=
  Eval cbv in
    match dispatch true (Sig_filterProgress (Float32.dyadic 1 1)) fresh_watcher with
    | Some (_, w) => w
    | None => fresh_watcher
    end.

(** The watcher once the holder of the future has asked for a pause, and
    once the process has been stopped on that request. *)
Definition pause_requested : World :=
  with_future (Future.set_paused true) fresh_watcher.

Definition stopped : World := set_processPaused_in true (log [Call_kill SIGSTOP] pause_requested).

(** A task that was started and then canceled before the pool ran it. *)
Definition canceled_task : World :=
  Eval cbv in
    match (start ;; request Req_cancel) fresh_task with
    | Some (_, w) => w
    | None => fresh_task
    end.

Definition started_task : World :=
  Eval cbv in
    match start fresh_task with
    | Some (_, w) => w
    | None => fresh_task
    end.

(** Outcomes of the process: exit code 2 with "boom" on the error channel,
    a crash, and a clean exit that left a warning on the error channel. *)
Definition boom : QProcess :=
  {| error := UnknownError; exitCode := 2;
     errorString := "Unknown error"; standardError := "boom" |}.

Definition crashed : QProcess :=
  {| error := Crashed; exitCode := 0;
     errorString := "Process crashed"; standardError := "partial" |}.

Definition clean_exit : QProcess :=
  {| error := UnknownError; exitCode := 0;
     errorString := "Unknown error"; standardError := "warning" |}.

Definition sample_events : list LoopEvent :=
  [Sig_filterStarted "filter" "";
   Sig_filterProgress (Float32.dyadic 1 1);
   Ev_request (Req_setPaused true);
   Sig_pollPauseTimeout 0;
   Ev_request (Req_setPaused false);
   Sig_resumed 0;
   Sig_filterXmlError "unexpected token";
   Sig_filterFinished "filter"].

(** ** Reading runs: further projections *)

(** The world [run] is in when it enters its local loop: the process has
    been started and the watcher constructed. *)
Definition entered (unix : bool) (w : World) : World :=
  (if unix then log [Call_timerStart 500] else fun x => x)
    (with_future (Future.set_range 0 1000)
       (log [Call_setProgressRange 0 1000]
          (with_watcher
             (fun _ => {| w_location := location w; processPaused := false;
                          progressValue := 0 |})
             (log [Call_processStart (location w) (args w)] w)))).

Definition is_processTerminate (c : Call) : bool :=
  match c with Call_processTerminate => true | _ => false end.

Definition is_timerStart (c : Call) : bool :=
  match c with Call_timerStart _ => true | _ => false end.

Definition is_setPaused (c : Call) : bool :=
  match c with Call_setPaused _ => true | _ => false end.

Definition is_canceled_signal (ev : LoopEvent) : bool :=
  match ev with Sig_canceled => true | _ => false end.

(** The messages of the [filterXmlError] signals of an event list. *)
Fixpoint xml_errors (events : list LoopEvent) : list string :=
  match events with
  | [] => []
  | Sig_filterXmlError message :: rest => message :: xml_errors rest
  | _ :: rest => xml_errors rest
  end.


(** The world a slot leaves for an event it handles without undefined
    behaviour; [v] is the converted product of a [Progress] event. *)
Definition after_event (unix : bool) (ev : LoopEvent) (w : World) : World :=
  match ev with
  | Sig_filterStarted name _ =>
      report (Z.min (progressValue (watcher w) + 1) 999) name
        (set_counter (Z.min (progressValue (watcher w) + 1) 999) w)
  | Sig_filterProgress f =>
      match Float32.static_cast_int (Float32.mul f Float32.f1000) with
      | Some v =>
          with_future (Future.set_progress (clamp 1 999 v) EmptyString)
            (log [Call_setProgressValue (clamp 1 999 v)] (set_counter (clamp 1 999 v) w))
      | None => w
      end
  | Sig_filterFinished name =>
      report (Z.min (progressValue (watcher w) + 1) 999) ("Finished: " ++ name)
        (set_counter (Z.min (progressValue (watcher w) + 1) 999) w)
  | Sig_filterXmlError message =>
      log [Call_qDebug ["[Module "; w_location (watcher w); "]: "; message]%string] w
  | Sig_canceled => log [Call_processTerminate] w
  | Sig_resumed rc =>
      if unix && processPaused (watcher w) then
        if negb (rc =? 0)
        then with_future (Future.set_paused true)
               (log [Call_setPaused true] (log [Call_kill SIGCONT] w))
        else set_processPaused_in false (log [Call_kill SIGCONT] w)
      else w
  | Sig_pollPauseTimeout rc =>
      if unix && negb (processPaused (watcher w)) && f_paused (future w) then
        if negb (rc =? 0)
        then with_future (Future.set_paused false)
               (log [Call_setPaused false] (log [Call_kill SIGSTOP] w))
        else set_processPaused_in true (log [Call_kill SIGSTOP] w)
      else w
  | Ev_request Req_cancel => with_future (Future.set_canceled true) w
  | Ev_request (Req_setPaused b) => with_future (Future.set_paused b) w
  end.

(** The calls by which the watcher suspends and continues the process:
    the signals, the polling timer, and the roll-back of the paused flag. *)
Definition is_suspension_call (c : Call) : bool :=
  is_kill c || is_timerStart c || is_setPaused c.

(** How [filterXmlError] tags a message with the location of a module. *)
Definition tagged (loc message : string) : Call :=
  Call_qDebug ["[Module "; loc; "]: "; message]%string.

(** Rounding [m / 2^k] to the nearest integer, ties to the even one. *)
Definition round_half_even (m k : Z) : Z :=
  m / 2 ^ k
  + (if (2 ^ k <? 2 * (m mod 2 ^ k)) || ((2 * (m mod 2 ^ k) =? 2 ^ k) && Z.odd (m / 2 ^ k))
     then 1 else 0).

(** * Properties *)

(** ** Facts on binary32 rounding *)

Lemma digits2_pos_size p : digits2_pos p = Pos.size p.
Proof. induction p; simpl; congruence. Qed.

Lemma Zdigits2_lt p : Zpos p < 2 ^ Zpos (digits2_pos p).
Proof.
  rewrite digits2_pos_size.
  pose proof (Pos.size_gt p) as H.
  rewrite <- Pos2Z.inj_pow. lia.
Qed.

Lemma Zdigits2_ge p : 2 ^ (Zpos (digits2_pos p) - 1) <= Zpos p.
Proof.
  rewrite digits2_pos_size.
  pose proof (Pos.size_le p) as H.
  assert (2 ^ Zpos (Pos.size p) <= 2 * Zpos p).
  { rewrite <- Pos2Z.inj_pow. lia. }
  replace (Zpos (Pos.size p)) with (Z.succ (Zpos (Pos.size p) - 1)) in H0 by lia.
  rewrite Z.pow_succ_r in H0 by lia. lia.
Qed.

Lemma shr_1_m mrs : 0 <= shr_m mrs -> shr_m (shr_1 mrs) = shr_m mrs / 2.
Proof.
  destruct mrs as [m r s]. simpl. intros H.
  destruct m as [|p|p]; try lia.
  - reflexivity.
  - destruct p; simpl.
    + rewrite Pos2Z.inj_xI. apply Z.div_unique with 1; lia.
    + rewrite Pos2Z.inj_xO. apply Z.div_unique with 0; lia.
    + reflexivity.
Qed.

Lemma shr_iter_m p : forall mrs, 0 <= shr_m mrs ->
  shr_m (iter_pos shr_1 p mrs) = shr_m mrs / 2 ^ Zpos p.
Proof.
  induction p; intros mrs H; simpl iter_pos.
  - assert (H1 : 0 <= shr_m (shr_1 mrs)) by (rewrite shr_1_m by lia; apply Z.div_pos; lia).
    assert (H2 : 0 <= shr_m (iter_pos shr_1 p (shr_1 mrs)))
      by (rewrite IHp by lia; apply Z.div_pos; lia).
    rewrite IHp, IHp, shr_1_m by lia.
    rewrite !Z.div_div by lia.
    f_equal.
    replace (Zpos p~1) with (1 + Zpos p + Zpos p) by lia.
    rewrite !Z.pow_add_r by lia. lia.
  - assert (H2 : 0 <= shr_m (iter_pos shr_1 p mrs))
      by (rewrite IHp by lia; apply Z.div_pos; lia).
    rewrite IHp, IHp by lia.
    rewrite !Z.div_div by lia.
    f_equal.
    replace (Zpos p~0) with (Zpos p + Zpos p) by lia.
    rewrite !Z.pow_add_r by lia. lia.
  - rewrite shr_1_m by lia. reflexivity.
Qed.

Section Format.
Variables prec emax : Z.

Lemma shr_fexp_spec m e :
  0 <= m ->
  let e' := Z.max e (fexp prec emax (Zdigits2 m + e)) in
  exists mrs, shr_fexp prec emax m e loc_Exact = (mrs, e') /\ shr_m mrs = m / 2 ^ (e' - e).
Proof.
  intros Hm e'. unfold shr_fexp, shr. cbn [shr_record_of_loc].
  destruct (fexp prec emax (Zdigits2 m + e) - e) as [|p|p] eqn:Hn.
  - eexists; split.
    + f_equal. unfold e'. lia.
    + cbn. replace (e' - e) with 0 by (unfold e'; lia). rewrite Z.div_1_r. reflexivity.
  - eexists; split.
    + f_equal. unfold e'. lia.
    + rewrite shr_iter_m by (cbn; lia). cbn [shr_m]. f_equal. f_equal. unfold e'. lia.
  - eexists; split.
    + f_equal. unfold e'. lia.
    + cbn. replace (e' - e) with 0 by (unfold e'; lia). rewrite Z.div_1_r. reflexivity.
Qed.

Lemma round_nearest_even_range m l : m <= round_nearest_even m l <= m + 1.
Proof.
  destruct l as [|[]]; cbn; try lia.
  destruct (Z.even m); lia.
Qed.

Lemma binary_round_aux_spec M E :
  let e1 := Z.max E (fexp prec emax (Zpos (digits2_pos M) + E)) in
  let m1 := Zpos M / 2 ^ (e1 - E) in
  exists r, m1 <= r <= m1 + 1 /\
    let e2 := Z.max e1 (fexp prec emax (Zdigits2 r + e1)) in
    binary_round_aux prec emax false (Zpos M) E loc_Exact =
      match r / 2 ^ (e2 - e1) with
      | Z0 => S754_zero false
      | Zpos p => if e2 <=? emax - prec then S754_finite false p e2 else S754_infinity false
      | Zneg _ => S754_nan
      end.
Proof.
  intros e1 m1. unfold binary_round_aux.
  destruct (shr_fexp_spec (Zpos M) E ltac:(lia)) as [mrs1 [H1 H1m]].
  cbn [Zdigits2] in H1. fold e1 in H1. rewrite H1.
  cbn [Zdigits2] in H1m. fold e1 in H1m. fold m1 in H1m.
  set (r := round_nearest_even (shr_m mrs1) (loc_of_shr_record mrs1)).
  assert (Hr : m1 <= r <= m1 + 1) by (unfold r; rewrite <- H1m; apply round_nearest_even_range).
  assert (Hm1 : 0 <= m1) by (apply Z.div_pos; lia).
  destruct (shr_fexp_spec r e1 ltac:(lia)) as [mrs2 [H2 H2m]].
  exists r. split; [exact Hr|].
  cbv zeta. rewrite H2. rewrite H2m. reflexivity.
Qed.
End Format.

Lemma fexp32 x : fexp Float32.prec Float32.emax x = Z.max (x - 24) (-149).
Proof. reflexivity. Qed.

Lemma unit_interval_finite s m e :
  Float32.valid (S754_finite s m e) = true ->
  Float32.in_unit_interval (S754_finite s m e) = true ->
  s = false /\ -149 <= e <= -23 /\ Zpos m <= 2 ^ (- e).
Proof.
  unfold Float32.in_unit_interval, Float32.valid, valid_binary, bounded, canonical_mantissa.
  rewrite fexp32. intros Hv Hu.
  apply andb_prop in Hv as [Hc _]. apply Z.eqb_eq in Hc.
  apply andb_prop in Hu as [H0 H1].
  destruct s; [discriminate H0|]. split; [reflexivity|].
  unfold Float32.leb, SFleb, SFcompare, Float32.one in H1.
  pose proof (Zdigits2_lt m) as Hd.
  assert (Hd24 : Zpos (digits2_pos m) <= 24) by lia.
  assert (Hm24 : Zpos m < 2 ^ 24).
  { eapply Z.lt_le_trans; [exact Hd|]. apply Z.pow_le_mono_r; lia. }
  destruct (Z.compare_spec e (-23)) as [He|He|He]; try discriminate H1.
  - subst e. split; [lia|].
    change (2 ^ (- -23)) with 8388608.
    change (Pos.compare_cont Eq m 8388608) with (Pos.compare m 8388608) in H1.
    destruct (Pos.compare_spec m 8388608) as [Hm|Hm|Hm]; try discriminate H1; lia.
  - split; [lia|].
    apply Z.lt_le_incl. eapply Z.lt_le_trans; [exact Hm24|].
    apply Z.pow_le_mono_r; lia.
Qed.

Lemma Zdigits2_le r k : 0 <= k -> 0 <= r < 2 ^ k -> Zdigits2 r <= k.
Proof.
  intros Hk Hr. destruct r as [|p|p]; cbn; try lia.
  pose proof (Zdigits2_ge p) as Hd.
  assert (H : 2 ^ (Zpos (digits2_pos p) - 1) < 2 ^ k) by lia.
  apply Z.pow_lt_mono_r_iff in H; lia.
Qed.

Lemma mul_f1000_trunc m e :
  -149 <= e <= -23 -> Zpos m <= 2 ^ (- e) ->
  exists v, 0 <= v <= 1000 /\
    Float32.trunc (Float32.mul (S754_finite false m e) Float32.f1000) = Some v.
Proof.
  intros He Hm. unfold Float32.mul, SFmul, Float32.f1000. cbn [xorb].
  destruct (binary_round_aux_spec Float32.prec Float32.emax (m * 16384000) (e + -14)) as [r [Hr Heq]].
  cbv zeta in Heq. rewrite Heq. clear Heq.
  rewrite !fexp32 in *.
  set (E := e + -14) in *.
  set (M := Zpos (m * 16384000)) in *.
  assert (HM : M <= 1000 * 2 ^ (- E)).
  { unfold M, E. rewrite Pos2Z.inj_mul.
    replace (- (e + -14)) with (14 + - e) by lia.
    rewrite Z.pow_add_r by lia. change (2 ^ 14) with 16384. lia. }
  assert (HE : 0 < 2 ^ (- E)) by (apply Z.pow_pos_nonneg; lia).
  assert (HdM : Zpos (digits2_pos (m * 16384000)) + E <= 10).
  { assert (H0 : 0 <= M < 2 ^ (10 - E)).
    { split; [unfold M; lia|].
      replace (10 - E) with (10 + - E) by lia.
      rewrite Z.pow_add_r by lia. change (2 ^ 10) with 1024. lia. }
    pose proof (Zdigits2_le M (10 - E) ltac:(lia) H0) as H.
    unfold M in H. cbn [Zdigits2] in H. lia. }
  set (e1 := Z.max E (Z.max (Zpos (digits2_pos (m * 16384000)) + E - 24) (-149))) in *.
  assert (He1 : E <= e1 <= -14) by (unfold e1, E; lia).
  set (P1 := 2 ^ (- e1)).
  assert (HP1 : 16384 <= P1).
  { unfold P1. change 16384 with (2 ^ 14). apply Z.pow_le_mono_r; lia. }
  assert (Hsplit : 2 ^ (- E) = P1 * 2 ^ (e1 - E)).
  { unfold P1. rewrite <- Z.pow_add_r by lia. f_equal. lia. }
  assert (HK : 0 < 2 ^ (e1 - E)) by (apply Z.pow_pos_nonneg; lia).
  set (m1 := M / 2 ^ (e1 - E)) in *.
  assert (Hm1 : 0 <= m1 <= 1000 * P1).
  { split; [apply Z.div_pos; unfold M; lia|].
    pose proof (Z.mul_div_le M (2 ^ (e1 - E)) HK) as Hle. fold m1 in Hle.
    rewrite Hsplit in HM. nia. }
  assert (Hr2 : 0 <= r < 2 ^ (10 - e1)).
  { split; [lia|].
    replace (10 - e1) with (10 + - e1) by lia.
    rewrite Z.pow_add_r by lia. fold P1. change (2 ^ 10) with 1024. lia. }
  pose proof (Zdigits2_le r (10 - e1) ltac:(lia) Hr2) as Hdr.
  set (e2 := Z.max e1 (Z.max (Zdigits2 r + e1 - 24) (-149))) in *.
  assert (He2 : e1 <= e2 <= -14) by (unfold e2; lia).
  assert (HK2 : 0 < 2 ^ (e2 - e1)) by (apply Z.pow_pos_nonneg; lia).
  assert (Hdd : r / 2 ^ (e2 - e1) / 2 ^ (- e2) = r / P1).
  { rewrite Z.div_div by (try apply Z.pow_pos_nonneg; lia).
    f_equal. unfold P1. rewrite <- Z.pow_add_r by lia. f_equal. lia. }
  assert (Hv : 0 <= r / P1 <= 1000).
  { split; [apply Z.div_pos; lia|].
    assert (r / P1 < 1001); [|lia].
    apply Z.div_lt_upper_bound; lia. }
  destruct (r / 2 ^ (e2 - e1)) as [|p|p] eqn:Hm2.
  - exists 0. cbn. split; [lia|reflexivity].
  - replace (e2 <=? Float32.emax - Float32.prec) with true
      by (symmetry; apply Z.leb_le; unfold Float32.emax, Float32.prec; lia).
    exists (r / P1). split; [exact Hv|].
    cbn [Float32.trunc cond_Zopp]. f_equal.
    rewrite Z.shiftl_div_pow2 by lia. exact Hdd.
  - exfalso. assert (0 <= r / 2 ^ (e2 - e1)) by (apply Z.div_pos; lia). lia.
Qed.

Lemma integer_part_pos n d : 0 <= n -> integer_part (n # d) = n / Zpos d.
Proof.
  intros H. unfold integer_part, Qle_bool. cbn [Qnum Qden].
  replace (0 * Zpos d <=? n * 1) with true by (symmetry; apply Z.leb_le; lia).
  reflexivity.
Qed.

Lemma integer_part_neg n d : 0 < n -> integer_part (- n # d) = - (n / Zpos d).
Proof.
  intros H. unfold integer_part, Qle_bool. cbn [Qnum Qden].
  replace (0 * Zpos d <=? - n * 1) with false by (symmetry; apply Z.leb_gt; lia).
  unfold Qceiling, Qopp, Qfloor. cbn [Qnum Qden]. rewrite Z.opp_involutive. reflexivity.
Qed.

Lemma trunc_to_Q f : Float32.trunc f = option_map integer_part (Float32.to_Q f).
Proof.
  destruct f as [s|s| |s m e]; cbn [Float32.trunc Float32.to_Q option_map]; try reflexivity.
  f_equal.
  assert (Hpow : forall p, 0 < Zpos m * 2 ^ Zpos p).
  { intros p. apply Z.mul_pos_pos; [lia|]. apply Z.pow_pos_nonneg; lia. }
  destruct e as [|p|p]; destruct s; cbn [cond_Zopp].
  - rewrite integer_part_neg by lia.
    rewrite Z.div_1_r, Z.shiftl_mul_pow2 by lia. reflexivity.
  - rewrite integer_part_pos by lia.
    rewrite Z.div_1_r, Z.shiftl_mul_pow2 by lia. reflexivity.
  - rewrite integer_part_neg by apply Hpow.
    rewrite Z.div_1_r, Z.shiftl_mul_pow2 by lia. reflexivity.
  - rewrite integer_part_pos by (specialize (Hpow p); lia).
    rewrite Z.div_1_r, Z.shiftl_mul_pow2 by lia. reflexivity.
  - rewrite integer_part_neg by lia.
    rewrite Z.shiftl_div_pow2 by lia. rewrite Pos2Z.inj_pow. reflexivity.
  - rewrite integer_part_pos by lia.
    rewrite Z.shiftl_div_pow2 by lia. rewrite Pos2Z.inj_pow. reflexivity.
Qed.

(** ** Closed forms of the normaliser *)

Lemma clamp_bounds lo hi v : lo <= hi -> lo <= clamp lo hi v <= hi.
Proof. unfold clamp; lia. Qed.

Lemma updateProgress_eq f w v :
  Float32.static_cast_int (Float32.mul f Float32.f1000) = Some v ->
  updateProgress f w = Some (clamp 1 999 v, set_counter (clamp 1 999 v) w).
Proof.
  intros Hv. unfold updateProgress, bind, lift. rewrite Hv. cbn.
  unfold clamp.
  destruct (v <? 1) eqn:H1; cbn.
  - apply Z.ltb_lt in H1.
    replace (Z.max 1 (Z.min 999 v)) with 1 by lia. reflexivity.
  - apply Z.ltb_ge in H1.
    destruct (v >? 999) eqn:H2; cbn.
    + apply Z.gtb_lt in H2.
      replace (Z.max 1 (Z.min 999 v)) with 999 by lia. reflexivity.
    + rewrite Z.gtb_ltb in H2. apply Z.ltb_ge in H2.
      replace (Z.max 1 (Z.min 999 v)) with v by lia. reflexivity.
Qed.

Lemma updateProgress_undefined f w :
  Float32.static_cast_int (Float32.mul f Float32.f1000) = None ->
  updateProgress f w = None.
Proof. intros Hv. unfold updateProgress, bind, lift. rewrite Hv. reflexivity. Qed.

Lemma Int_wrap_id z : Int.INT_MIN <= z <= Int.INT_MAX -> Int.wrap z = z.
Proof.
  unfold Int.INT_MIN, Int.INT_MAX, Int.wrap. intros H.
  rewrite Z.mod_small; lia.
Qed.

Lemma incrementProgress_eq w :
  Int.INT_MIN <= progressValue (watcher w) <= 999 ->
  incrementProgress w =
    Some (Z.min (progressValue (watcher w) + 1) 999,
          set_counter (Z.min (progressValue (watcher w) + 1) 999) w).
Proof.
  intros H. unfold incrementProgress, bind. cbn.
  rewrite Int_wrap_id by (unfold Int.INT_MIN, Int.INT_MAX in *; lia).
  destruct (progressValue (watcher w) + 1 >? 999) eqn:H2; cbn.
  - apply Z.gtb_lt in H2.
    replace (Z.min (progressValue (watcher w) + 1) 999) with 999 by lia. reflexivity.
  - rewrite Z.gtb_ltb in H2. apply Z.ltb_ge in H2.
    replace (Z.min (progressValue (watcher w) + 1) 999)
      with (progressValue (watcher w) + 1) by lia.
    reflexivity.
Qed.

Lemma unit_interval_static_cast f :
  Float32.valid f = true -> Float32.in_unit_interval f = true ->
  exists v, 0 <= v <= 1000 /\
    Float32.static_cast_int (Float32.mul f Float32.f1000) = Some v.
Proof.
  intros Hv Hu. unfold Float32.static_cast_int.
  destruct f as [s|s| |s m e].
  - exists 0. split; [lia|]. destruct s; reflexivity.
  - destruct s; discriminate Hu.
  - discriminate Hu.
  - destruct (unit_interval_finite s m e Hv Hu) as [-> [He Hm]].
    destruct (mul_f1000_trunc m e He Hm) as [v [Hr Ht]].
    exists v. split; [exact Hr|]. rewrite Ht.
    replace (Int.in_range v) with true; [reflexivity|].
    symmetry. unfold Int.in_range, Int.INT_MIN, Int.INT_MAX.
    apply andb_true_intro. split; apply Z.leb_le; lia.
Qed.

Lemma static_cast_int_integer_part f v :
  Float32.static_cast_int f = Some v ->
  exists q, Float32.to_Q f = Some q /\ integer_part q = v.
Proof.
  unfold Float32.static_cast_int. rewrite trunc_to_Q.
  destruct (Float32.to_Q f) as [q|]; cbn [option_map]; [|discriminate].
  destruct (Int.in_range (integer_part q)); [|discriminate].
  intros [= <-]. exists q. split; reflexivity.
Qed.

(** ** C1: what a [Progress] event does to the counter *)

(** C1, as amended. For every binary32 [fraction] in [[0,1]], the slot
    [filterProgress] sets the counter, and reports to the handle, the
    integer part (towards zero, not the nearest integer) of the
    single-precision product [fraction * 1000.0f], clamped into [[1,999]];
    the new value is a function of the fraction alone, so it replaces the
    previous counter value. *)
Theorem filterProgress_sets_truncated (f : Float32.float) (w : World) :
  Float32.valid f = true ->
  Float32.in_unit_interval f = true ->
  exists q w',
    Float32.to_Q (Float32.mul f Float32.f1000) = Some q /\
    updateProgress f w = Some (clamp 1 999 (integer_part q),
                               set_counter (clamp 1 999 (integer_part q)) w) /\
    filterProgress f w = Some (tt, w') /\
    progressValue (watcher w') = clamp 1 999 (integer_part q) /\
    f_progressValue (future w') = clamp 1 999 (integer_part q) /\
    calls w' = calls w ++ [Call_setProgressValue (clamp 1 999 (integer_part q))].
Proof.
  intros Hv Hu.
  destruct (unit_interval_static_cast f Hv Hu) as [v [_ Hc]].
  destruct (static_cast_int_integer_part _ _ Hc) as [q [Hq Hi]].
  exists q. eexists. split; [exact Hq|]. rewrite Hi.
  split; [apply updateProgress_eq; exact Hc|].
  unfold filterProgress, bind. rewrite (updateProgress_eq f w v Hc).
  cbn. repeat split.
Qed.

Lemma filterProgress_sets_truncated_witness :
  Float32.valid fraction_1_512 = true /\
  Float32.in_unit_interval fraction_1_512 = true /\
  exists q w',
    Float32.to_Q (Float32.mul fraction_1_512 Float32.f1000) = Some q /\
    updateProgress fraction_1_512 fresh_watcher
      = Some (clamp 1 999 (integer_part q),
              set_counter (clamp 1 999 (integer_part q)) fresh_watcher) /\
    filterProgress fraction_1_512 fresh_watcher = Some (tt, w') /\
    progressValue (watcher w') = clamp 1 999 (integer_part q) /\
    f_progressValue (future w') = clamp 1 999 (integer_part q) /\
    calls w' = calls fresh_watcher
                 ++ [Call_setProgressValue (clamp 1 999 (integer_part q))].
Proof.
  split; [reflexivity|]. split; [reflexivity|].
  apply (filterProgress_sets_truncated fraction_1_512 fresh_watcher); reflexivity.
Defined.

(** C1, as stated, fails: for the fraction [1/512] the specification's
    [clamp(round(fraction * 1000), 1, 999)] is 2 (1.953125 rounds up),
    while [filterProgress] leaves the counter at 1. *)
Lemma filterProgress_not_rounded :
  Float32.valid fraction_1_512 = true /\
  Float32.in_unit_interval fraction_1_512 = true /\
  exists q w',
    Float32.to_Q fraction_1_512 = Some q /\ q == 1 # 512 /\
    filterProgress fraction_1_512 fresh_watcher = Some (tt, w') /\
    progressValue (watcher w') = 1 /\
    spec_normalize q = 2 /\
    progressValue (watcher w') <> spec_normalize q.
Proof.
  split; [reflexivity|]. split; [reflexivity|].
  eexists. eexists.
  split; [reflexivity|].
  split; [reflexivity|].
  split; [reflexivity|].
  split; [reflexivity|].
  split; [reflexivity|].
  cbv. discriminate.
Qed.

(** ** Closed forms of the slots *)

Lemma filterStarted_eq name comment w :
  Int.INT_MIN <= progressValue (watcher w) <= 999 ->
  filterStarted name comment w =
    Some (tt, report (Z.min (progressValue (watcher w) + 1) 999) name
                (set_counter (Z.min (progressValue (watcher w) + 1) 999) w)).
Proof.
  intros H. unfold filterStarted, bind. rewrite (incrementProgress_eq w H). reflexivity.
Qed.

Lemma filterFinished_eq name w :
  Int.INT_MIN <= progressValue (watcher w) <= 999 ->
  filterFinished name w =
    Some (tt, report (Z.min (progressValue (watcher w) + 1) 999) ("Finished: " ++ name)
                (set_counter (Z.min (progressValue (watcher w) + 1) 999) w)).
Proof.
  intros H. unfold filterFinished, bind. rewrite (incrementProgress_eq w H). reflexivity.
Qed.

Lemma filterProgress_eq f w v :
  Float32.static_cast_int (Float32.mul f Float32.f1000) = Some v ->
  filterProgress f w =
    Some (tt, with_future (Future.set_progress (clamp 1 999 v) EmptyString)
                (log [Call_setProgressValue (clamp 1 999 v)]
                   (set_counter (clamp 1 999 v) w))).
Proof.
  intros H. unfold filterProgress, bind. rewrite (updateProgress_eq f w v H). reflexivity.
Qed.

Lemma pauseProcess_eq unix rc w :
  pauseProcess unix rc w =
    Some (tt,
      if processPaused (watcher w) || negb (f_paused (future w)) then w
      else if unix then
        if negb (rc =? 0)
        then with_future (Future.set_paused false)
               (log [Call_setPaused false] (log [Call_kill SIGSTOP] w))
        else set_processPaused_in true (log [Call_kill SIGSTOP] w)
      else w).
Proof.
  unfold pauseProcess, bind. cbn.
  destruct (processPaused (watcher w) || negb (f_paused (future w))); [reflexivity|].
  destruct unix; [|reflexivity]. cbn.
  destruct (rc =? 0); reflexivity.
Qed.

Lemma resumeProcess_eq unix rc w :
  resumeProcess unix rc w =
    Some (tt,
      if negb (processPaused (watcher w)) then w
      else if unix then
        if negb (rc =? 0)
        then with_future (Future.set_paused true)
               (log [Call_setPaused true] (log [Call_kill SIGCONT] w))
        else set_processPaused_in false (log [Call_kill SIGCONT] w)
      else w).
Proof.
  unfold resumeProcess, bind. cbn.
  destruct (negb (processPaused (watcher w))); [reflexivity|].
  destruct unix; [|reflexivity]. cbn.
  destruct (rc =? 0); reflexivity.
Qed.

(** ** The event loop keeps the watcher at work *)

Lemma loop_step_refl w : loop_step w w.
Proof.
  unfold loop_step. repeat split. exists []. rewrite app_nil_r. split; reflexivity.
Qed.

Lemma loop_step_trans w1 w2 w3 : loop_step w1 w2 -> loop_step w2 w3 -> loop_step w1 w3.
Proof.
  unfold loop_step.
  intros (A1 & A2 & A3 & A4 & A5 & A6 & A7 & l1 & A8 & A9)
         (B1 & B2 & B3 & B4 & B5 & B6 & B7 & l2 & B8 & B9).
  repeat split; try congruence.
  exists (l1 ++ l2). split.
  - rewrite B8, A8, app_assoc. reflexivity.
  - rewrite forallb_app, A9, B9. reflexivity.
Qed.

Ltac loop_step_now :=
  unfold loop_step; cbn; repeat split;
  eexists; split; [rewrite <- ?app_assoc; reflexivity | cbn; try reflexivity].

Lemma range_check v : 1 <= v <= 999 -> (1 <=? v) && (v <=? 999) = true.
Proof. intros H. apply andb_true_intro. split; apply Z.leb_le; lia. Qed.

Lemma dispatch_spec unix ev w :
  counter_ok w -> event_defined ev = true ->
  exists w', dispatch unix ev w = Some (tt, w') /\ counter_ok w' /\ loop_step w w' /\
    (f_progressValue (future w) = progressValue (watcher w) ->
     f_progressValue (future w') = progressValue (watcher w')).
Proof.
  intros Hr Hd. unfold counter_ok in *.
  assert (Hi : Int.INT_MIN <= progressValue (watcher w) <= 999)
    by (unfold Int.INT_MIN; lia).
  destruct ev as [name comment|f|name|message| |rc|rc|r]; cbn [dispatch].
  - rewrite (filterStarted_eq name comment w Hi). eexists. split; [reflexivity|].
    split; [cbn; lia|]. split; [|reflexivity].
    loop_step_now. rewrite range_check by lia. reflexivity.
  - cbn in Hd.
    destruct (Float32.static_cast_int (Float32.mul f Float32.f1000)) as [v|] eqn:Hv;
      [|discriminate].
    rewrite (filterProgress_eq f w v Hv). eexists. split; [reflexivity|].
    pose proof (clamp_bounds 1 999 v ltac:(lia)) as Hc.
    split; [cbn; lia|]. split; [|reflexivity].
    loop_step_now. rewrite range_check by lia. reflexivity.
  - rewrite (filterFinished_eq name w Hi). eexists. split; [reflexivity|].
    split; [cbn; lia|]. split; [|reflexivity].
    loop_step_now. rewrite range_check by lia. reflexivity.
  - eexists. split; [reflexivity|]. split; [assumption|]. split; [|trivial]. loop_step_now.
  - eexists. split; [reflexivity|]. split; [assumption|]. split; [|trivial]. loop_step_now.
  - destruct unix.
    + rewrite resumeProcess_eq. eexists. split; [reflexivity|].
      destruct (negb (processPaused (watcher w)));
        [split; [assumption|split; [apply loop_step_refl|trivial]]|].
      destruct (negb (rc =? 0)); (split; [assumption|split; [loop_step_now|trivial]]).
    + eexists. split; [reflexivity|].
      split; [assumption|split; [apply loop_step_refl|trivial]].
  - destruct unix.
    + rewrite pauseProcess_eq. eexists. split; [reflexivity|].
      destruct (processPaused (watcher w) || negb (f_paused (future w)));
        [split; [assumption|split; [apply loop_step_refl|trivial]]|].
      destruct (negb (rc =? 0)); (split; [assumption|split; [loop_step_now|trivial]]).
    + eexists. split; [reflexivity|].
      split; [assumption|split; [apply loop_step_refl|trivial]].
  - destruct r; (eexists; split; [reflexivity|]; split; [assumption|]; split; [|trivial]);
      unfold loop_step; cbn; repeat split; exists []; rewrite app_nil_r; split; reflexivity.
Qed.

Lemma localLoop_exec_spec unix events outcome : forall w,
  counter_ok w -> forallb event_defined events = true ->
  exists w1, localLoop_exec unix events outcome w
               = Some (tt, with_process (fun _ => outcome) w1) /\
    counter_ok w1 /\ loop_step w w1.
Proof.
  induction events as [|ev rest IH]; intros w Hr Hd.
  - exists w. split; [reflexivity|]. split; [exact Hr|apply loop_step_refl].
  - cbn [forallb] in Hd. apply andb_prop in Hd as [Hd1 Hd2].
    destruct (dispatch_spec unix ev w Hr Hd1) as [w1 [E1 [R1 [S1 _]]]].
    destruct (IH w1 R1 Hd2) as [w2 [E2 [R2 S2]]].
    exists w2. split.
    + cbn [localLoop_exec]. unfold bind. rewrite E1. exact E2.
    + split; [exact R2|]. eapply loop_step_trans; eassumption.
Qed.

(** ** The control paths of [run] *)

Lemma run_canceled unix events outcome w :
  f_canceled (future w) = true ->
  run unix events outcome w =
    Some (tt, with_future (Future.set_finished true) (log [Call_reportFinished] w)).
Proof.
  intros Hc. unfold run, bind, isCanceled, gets. rewrite Hc. reflexivity.
Qed.

Lemma run_spawned unix events outcome w :
  f_canceled (future w) = false ->
  forallb event_defined events = true ->
  exists w' l,
    run unix events outcome w = Some (tt, w') /\
    calls w' = calls w ++ prologue_calls unix (location w) (args w)
                       ++ l ++ epilogue_calls (location w) outcome /\
    forallb loop_call l = true /\
    location w' = location w /\
    f_started (future w') = f_started (future w) /\
    f_finished (future w') = true /\
    f_progressValue (future w') = 1000 /\
    f_progressText (future w') = final_text outcome /\
    f_exception (future w') =
      match run_exception (location w) outcome with
      | Some e => Some e
      | None => f_exception (future w)
      end.
Proof.
  intros Hc Hd. unfold run, bind, isCanceled, gets. rewrite Hc.
  unfold process_start, Watcher_new, bind.
  destruct unix; cbn;
    (match goal with
     | |- context [localLoop_exec ?u events outcome ?w0] =>
         destruct (localLoop_exec_spec u events outcome w0) as [w1 [E [_ S]]];
           [unfold counter_ok; cbn; lia | exact Hd |]
     end;
     destruct S as (S1 & S2 & S3 & S4 & S5 & S6 & S7 & l & S8 & S9);
     cbn in S1, S2, S5, S7, S8;
     rewrite E; clear E;
     unfold epilogue_calls, final_text, run_exception, prologue_calls; cbn;
     destruct (ProcessError_eqb (error outcome) UnknownError); cbn;
     destruct (exitCode outcome =? 0); cbn;
     (eexists; exists l; split; [reflexivity|]; cbn;
      rewrite ?S1, ?S5, ?S7, S8; cbn; rewrite <- ?app_assoc; cbn;
      repeat split; try reflexivity; try exact S9)).
Qed.

(** ** C3: [Started] and [Finished] events *)

Lemma started_or_finished_run unix events outcome : forall w,
  Int.INT_MIN <= progressValue (watcher w) <= 999 ->
  forallb is_started_or_finished events = true ->
  exists w', localLoop_exec unix events outcome w = Some (tt, w') /\
    progressValue (watcher w')
      = Z.min (progressValue (watcher w) + Z.of_nat (List.length events)) 999.
Proof.
  induction events as [|ev rest IH]; intros w Hw Hev.
  - eexists. split; [reflexivity|]. cbn. lia.
  - cbn [forallb] in Hev. apply andb_prop in Hev as [H1 H2].
    cbn [localLoop_exec]. unfold bind.
    destruct ev; try discriminate H1; cbn [dispatch].
    + rewrite (filterStarted_eq name comment w Hw).
      match goal with
      | |- context [localLoop_exec unix rest outcome ?w1] =>
          destruct (IH w1) as [w' [E Hp]];
            [unfold Int.INT_MIN in *; cbn; lia | exact H2 |]
      end.
      exists w'. split; [exact E|]. rewrite Hp. cbn [List.length]. cbn. lia.
    + rewrite (filterFinished_eq name w Hw).
      match goal with
      | |- context [localLoop_exec unix rest outcome ?w1] =>
          destruct (IH w1) as [w' [E Hp]];
            [unfold Int.INT_MIN in *; cbn; lia | exact H2 |]
      end.
      exists w'. split; [exact E|]. rewrite Hp. cbn [List.length]. cbn. lia.
Qed.

(** C3. From a counter value that does not exceed 999, a [Started] and a
    [Finished] event each set the counter, and the progress value of the
    handle, to the value before plus one, capped at 999; [Started] makes
    the filter name the status text and [Finished] the name prefixed with
    "Finished: ". After any number [n] of such events the counter is the
    value before plus [n], capped at 999. *)
Theorem started_finished_advance_by_one (unix : bool) (w : World) :
  Int.INT_MIN <= progressValue (watcher w) <= 999 ->
  (forall name comment, exists w',
      dispatch unix (Sig_filterStarted name comment) w = Some (tt, w') /\
      progressValue (watcher w') = Z.min (progressValue (watcher w) + 1) 999 /\
      f_progressValue (future w') = Z.min (progressValue (watcher w) + 1) 999 /\
      f_progressText (future w') = name) /\
  (forall name, exists w',
      dispatch unix (Sig_filterFinished name) w = Some (tt, w') /\
      progressValue (watcher w') = Z.min (progressValue (watcher w) + 1) 999 /\
      f_progressValue (future w') = Z.min (progressValue (watcher w) + 1) 999 /\
      f_progressText (future w') = ("Finished: " ++ name)%string) /\
  (forall events outcome,
      forallb is_started_or_finished events = true ->
      exists w',
        localLoop_exec unix events outcome w = Some (tt, w') /\
        progressValue (watcher w')
          = Z.min (progressValue (watcher w) + Z.of_nat (List.length events)) 999).
Proof.
  intros Hw. split; [|split].
  - intros name comment. cbn [dispatch].
    rewrite (filterStarted_eq name comment w Hw).
    eexists. split; [reflexivity|]. repeat split.
  - intros name. cbn [dispatch].
    rewrite (filterFinished_eq name w Hw).
    eexists. split; [reflexivity|]. repeat split.
  - intros events outcome Hev. apply started_or_finished_run; assumption.
Qed.

Lemma started_finished_advance_by_one_witness :
  Int.INT_MIN <= progressValue (watcher half_done) <= 999 /\
  (exists w',
      dispatch true (Sig_filterStarted "filter" "") half_done = Some (tt, w') /\
      progressValue (watcher w') = 501 /\
      f_progressText (future w') = "filter"%string) /\
  (exists w',
      localLoop_exec true
        [Sig_filterStarted "a" ""; Sig_filterFinished "a"; Sig_filterStarted "b" ""]
        clean_exit half_done = Some (tt, w') /\
      progressValue (watcher w') = 503).
Proof.
  assert (H : Int.INT_MIN <= progressValue (watcher half_done) <= 999)
    by (unfold Int.INT_MIN; cbn; lia).
  split; [exact H|].
  destruct (started_finished_advance_by_one true half_done H) as [HS [_ HN]].
  split.
  - destruct (HS "filter"%string ""%string) as [w' [E [Hc [_ Ht]]]].
    exists w'. split; [exact E|]. split; [exact Hc|exact Ht].
  - destruct (HN [Sig_filterStarted "a" ""; Sig_filterFinished "a"; Sig_filterStarted "b" ""]
                 clean_exit eq_refl) as [w' [E Hc]].
    exists w'. split; [exact E|exact Hc].
Defined.

(** ** C6 and C9: pause and resume by signal *)

(** C6, as amended. [pauseProcess] does nothing at all when [processPaused]
    is already set or the future is not paused, and calling it again right
    after itself changes nothing more. When it does send [SIGSTOP] and the
    delivery fails, it clears the paused flag of the future and leaves
    [processPaused] false; it raises no error and logs nothing (its only
    calls are [kill] and [setPaused(false)]). When the delivery succeeds
    it sets [processPaused]. *)
Theorem pauseProcess_rolls_back_silently (unix : bool) (rc : Z) (w : World) :
  ((processPaused (watcher w) = true \/ f_paused (future w) = false) ->
     pauseProcess unix rc w = Some (tt, w)) /\
  (forall rc', (pauseProcess unix rc ;; pauseProcess unix rc') w = pauseProcess unix rc w) /\
  (processPaused (watcher w) = false -> f_paused (future w) = true -> rc <> 0 ->
     exists w', pauseProcess true rc w = Some (tt, w') /\
       f_paused (future w') = false /\
       processPaused (watcher w') = false /\
       calls w' = calls w ++ [Call_kill SIGSTOP; Call_setPaused false] /\
       count is_qDebug (calls w') = count is_qDebug (calls w)) /\
  (processPaused (watcher w) = false -> f_paused (future w) = true -> rc = 0 ->
     exists w', pauseProcess true rc w = Some (tt, w') /\
       f_paused (future w') = true /\
       processPaused (watcher w') = true /\
       calls w' = calls w ++ [Call_kill SIGSTOP]).
Proof.
  split; [|split; [|split]].
  - intros H. rewrite pauseProcess_eq.
    replace (processPaused (watcher w) || negb (f_paused (future w))) with true;
      [reflexivity|].
    destruct H as [-> | ->]; [reflexivity|]. rewrite orb_true_r. reflexivity.
  - intros rc'. unfold bind at 1. rewrite (pauseProcess_eq unix rc w).
    destruct (processPaused (watcher w)) eqn:Hp; cbn [orb].
    + rewrite pauseProcess_eq, Hp. reflexivity.
    + destruct (f_paused (future w)) eqn:Hf; cbn [negb].
      * destruct unix.
        -- destruct (rc =? 0); cbn [negb]; rewrite pauseProcess_eq; cbn;
             rewrite ?Hp; cbn; rewrite ?orb_true_r; reflexivity.
        -- rewrite pauseProcess_eq, Hp, Hf. reflexivity.
      * rewrite pauseProcess_eq, Hp, Hf. reflexivity.
  - intros Hp Hf Hrc. rewrite pauseProcess_eq, Hp, Hf. cbn [orb negb].
    replace (rc =? 0) with false by (symmetry; apply Z.eqb_neq; exact Hrc).
    cbn [negb]. eexists. split; [reflexivity|]. cbn.
    rewrite Hp, <- app_assoc. repeat split.
    unfold count. rewrite filter_app. cbn. rewrite app_nil_r. reflexivity.
  - intros Hp Hf Hrc. rewrite pauseProcess_eq, Hp, Hf. cbn [orb negb].
    subst rc. cbn. eexists. split; [reflexivity|]. cbn. rewrite Hf. repeat split.
Qed.

Lemma pauseProcess_rolls_back_silently_witness :
  processPaused (watcher pause_requested) = false /\
  f_paused (future pause_requested) = true /\
  -1 <> 0 /\
  (exists w', pauseProcess true (-1) pause_requested = Some (tt, w') /\
     f_paused (future w') = false /\
     processPaused (watcher w') = false /\
     count is_qDebug (calls w') = count is_qDebug (calls pause_requested)) /\
  pauseProcess true 0 stopped = Some (tt, stopped).
Proof.
  assert (Hrc : -1 <> 0) by discriminate.
  split; [reflexivity|]. split; [reflexivity|]. split; [exact Hrc|].
  split.
  - destruct (pauseProcess_rolls_back_silently true (-1) pause_requested)
      as [_ [_ [Hfail _]]].
    destruct (Hfail eq_refl eq_refl Hrc) as [w' [E [H1 [H2 [_ H4]]]]].
    exists w'. repeat split; assumption.
  - destruct (pauseProcess_rolls_back_silently true 0 stopped) as [Hnoop _].
    apply Hnoop. left. reflexivity.
Defined.

(** C6, as stated, fails where it says that an error is logged: when the
    delivery of [SIGSTOP] fails, the slot calls [kill] and
    [setPaused(false)] and makes no [qDebug] call. *)
Lemma pauseProcess_failure_not_logged :
  exists w',
    pauseProcess true (-1) pause_requested = Some (tt, w') /\
    calls w' = calls pause_requested ++ [Call_kill SIGSTOP; Call_setPaused false] /\
    filter is_qDebug (calls w') = [] /\
    f_paused (future w') = false /\
    processPaused (watcher w') = false.
Proof.
  eexists. split; [reflexivity|]. repeat split.
Qed.

(** C9. [resumeProcess] does nothing at all when [processPaused] is not
    set. When it is set and the delivery of [SIGCONT] fails, the paused
    flag of the future is set again and [processPaused] stays true; when
    the delivery succeeds [processPaused] is cleared; and whenever a call
    clears [processPaused], the code was built for Unix and the delivery
    succeeded. *)
Theorem resumeProcess_rolls_back (unix : bool) (rc : Z) (w : World) :
  (processPaused (watcher w) = false -> resumeProcess unix rc w = Some (tt, w)) /\
  (processPaused (watcher w) = true -> rc <> 0 ->
     exists w', resumeProcess true rc w = Some (tt, w') /\
       f_paused (future w') = true /\
       processPaused (watcher w') = true /\
       calls w' = calls w ++ [Call_kill SIGCONT; Call_setPaused true]) /\
  (processPaused (watcher w) = true -> rc = 0 ->
     exists w', resumeProcess true rc w = Some (tt, w') /\
       processPaused (watcher w') = false /\
       future w' = future w /\
       calls w' = calls w ++ [Call_kill SIGCONT]) /\
  (forall w', resumeProcess unix rc w = Some (tt, w') ->
     processPaused (watcher w) = true ->
     processPaused (watcher w') = false ->
     unix = true /\ rc = 0).
Proof.
  split; [|split; [|split]].
  - intros Hp. rewrite resumeProcess_eq, Hp. reflexivity.
  - intros Hp Hrc. rewrite resumeProcess_eq, Hp. cbn [negb].
    replace (rc =? 0) with false by (symmetry; apply Z.eqb_neq; exact Hrc).
    cbn [negb]. eexists. split; [reflexivity|]. cbn.
    rewrite Hp, <- app_assoc. repeat split.
  - intros Hp Hrc. rewrite resumeProcess_eq, Hp. subst rc. cbn.
    eexists. split; [reflexivity|]. repeat split.
  - intros w' E Hp Hp'. rewrite resumeProcess_eq, Hp in E. cbn [negb] in E.
    destruct unix.
    + split; [reflexivity|].
      destruct (rc =? 0) eqn:Hrc; [apply Z.eqb_eq; exact Hrc|].
      cbn [negb] in E. injection E as <-. cbn in Hp'. congruence.
    + injection E as <-. congruence.
Qed.

Lemma resumeProcess_rolls_back_witness :
  processPaused (watcher stopped) = true /\
  -1 <> 0 /\
  (exists w', resumeProcess true (-1) stopped = Some (tt, w') /\
     f_paused (future w') = true /\ processPaused (watcher w') = true) /\
  (exists w', resumeProcess true 0 stopped = Some (tt, w') /\
     processPaused (watcher w') = false) /\
  resumeProcess true 0 pause_requested = Some (tt, pause_requested).
Proof.
  assert (Hrc : -1 <> 0) by discriminate.
  split; [reflexivity|]. split; [exact Hrc|].
  split; [|split].
  - destruct (resumeProcess_rolls_back true (-1) stopped) as [_ [Hfail _]].
    destruct (Hfail eq_refl Hrc) as [w' [E [H1 [H2 _]]]].
    exists w'. repeat split; assumption.
  - destruct (resumeProcess_rolls_back true 0 stopped) as [_ [_ [Hok _]]].
    destruct (Hok eq_refl eq_refl) as [w' [E [H1 _]]].
    exists w'. split; assumption.
  - destruct (resumeProcess_rolls_back true 0 pause_requested) as [Hnoop _].
    apply Hnoop. reflexivity.
Defined.

(** ** Reading the log of a run *)

Lemma progress_reports_app a b :
  progress_reports (a ++ b) = progress_reports a ++ progress_reports b.
Proof.
  induction a as [|c a IH]; [reflexivity|].
  cbn. destruct (progress_report c); cbn; rewrite IH; reflexivity.
Qed.

Lemma reported_exceptions_app a b :
  reported_exceptions (a ++ b) = reported_exceptions a ++ reported_exceptions b.
Proof.
  induction a as [|c a IH]; [reflexivity|].
  destruct c; cbn; rewrite IH; reflexivity.
Qed.

Lemma count_app p a b : count p (a ++ b) = (count p a + count p b)%nat.
Proof. unfold count. rewrite filter_app, length_app. reflexivity. Qed.

Lemma loop_calls_reports l :
  forallb loop_call l = true -> Forall (fun v => 1 <= v <= 999) (progress_reports l).
Proof.
  induction l as [|c l IH]; intros H; [constructor|].
  cbn [forallb] in H. apply andb_prop in H as [Hc Hl].
  destruct c; cbn in Hc |- *; try discriminate Hc; try (apply IH; exact Hl);
    (constructor; [|apply IH; exact Hl]);
    apply andb_prop in Hc as [H1 H2];
    apply Z.leb_le in H1; apply Z.leb_le in H2; lia.
Qed.

Lemma loop_calls_quiet l :
  forallb loop_call l = true ->
  count is_reportFinished l = 0%nat /\
  count is_reportException l = 0%nat /\
  count is_processStart l = 0%nat /\
  reported_exceptions l = [].
Proof.
  induction l as [|c l IH]; intros H; [repeat split|].
  cbn [forallb] in H. apply andb_prop in H as [Hc Hl].
  destruct (IH Hl) as (I1 & I2 & I3 & I4).
  destruct c; cbn in Hc; try discriminate Hc; unfold count in *; cbn;
    repeat split; assumption.
Qed.

Lemma ProcessError_eqb_eq a b : ProcessError_eqb a b = true <-> a = b.
Proof. destruct a, b; cbn; split; intros H; try reflexivity; discriminate H. Qed.

Lemma requests_spec rs : forall w,
  exists w', requests rs w = Some (tt, w') /\
    calls w' = calls w /\ location w' = location w /\ args w' = args w /\
    f_canceled (future w') = f_canceled (future w) || existsb is_cancel_request rs /\
    f_progressValue (future w') = f_progressValue (future w) /\
    f_exception (future w') = f_exception (future w) /\
    f_started (future w') = f_started (future w) /\
    f_finished (future w') = f_finished (future w).
Proof.
  induction rs as [|r rs IH]; intros w.
  - eexists. split; [reflexivity|]. rewrite orb_false_r. repeat split.
  - cbn [requests]. unfold bind.
    destruct r; cbn [request modify];
      match goal with
      | |- context [requests rs ?w1] =>
          destruct (IH w1) as (w' & E & H1 & H2 & H3 & H4 & H5 & H6 & H7 & H8)
      end;
      exists w'; (split; [exact E|]); cbn in *;
      rewrite H1, H2, H3, H4, H5, H6, H7, H8; repeat split;
      rewrite ?orb_true_r; reflexivity.
Qed.

Lemma ProcessTask_new_fresh unix loc arguments :
  calls (ProcessTask_new unix loc arguments) = [] /\
  f_canceled (future (ProcessTask_new unix loc arguments)) = false /\
  f_progressValue (future (ProcessTask_new unix loc arguments)) = 0 /\
  f_exception (future (ProcessTask_new unix loc arguments)) = None.
Proof. destruct unix; repeat split. Qed.

Lemma start_eq w :
  start w =
    Some (tt, log [Call_threadPoolStart 0]
                (with_future (Future.set_started true)
                   (log [Call_reportStarted] (log [Call_setRunnable] w)))).
Proof. reflexivity. Qed.

(** ** C4: cancellation *)

(** C4. When cancellation has been requested by the time [run] is entered,
    [run] only reports finished: it makes no other call, so it starts no
    process, and the handle, which carries no exception, is then in the
    [Canceled] state. The same holds for a whole execution in which a
    cancel request arrives between [start] and [run]. The slot run by the
    [canceled] signal while the loop is running makes exactly one call,
    [process.terminate()], and changes nothing else. *)
Theorem cancel_before_run_skips_process (unix : bool) (events : list LoopEvent)
        (outcome : QProcess) :
  (forall w, f_canceled (future w) = true -> f_exception (future w) = None ->
     exists w', run unix events outcome w = Some (tt, w') /\
       calls w' = calls w ++ [Call_reportFinished] /\
       count is_processStart (calls w') = count is_processStart (calls w) /\
       Future.state (future w') = Future.Canceled) /\
  (forall loc arguments before_run,
     existsb is_cancel_request before_run = true ->
     exists w', execution unix before_run events outcome (ProcessTask_new unix loc arguments)
                  = Some (tt, w') /\
       calls w' = [Call_setRunnable; Call_reportStarted; Call_threadPoolStart 0;
                   Call_reportFinished] /\
       count is_processStart (calls w') = 0%nat /\
       Future.state (future w') = Future.Canceled) /\
  (forall w, cancelProcess w = Some (tt, log [Call_processTerminate] w) /\
             dispatch unix Sig_canceled w = cancelProcess w).
Proof.
  split; [|split].
  - intros w Hc He. rewrite (run_canceled unix events outcome w Hc).
    eexists. split; [reflexivity|]. split; [reflexivity|]. split.
    + change (count is_processStart (calls w ++ [Call_reportFinished])
              = count is_processStart (calls w)).
      rewrite count_app. cbn. lia.
    + unfold Future.state. cbn. rewrite He, Hc. reflexivity.
  - intros loc arguments before_run Hb. unfold execution, bind.
    rewrite start_eq.
    destruct (ProcessTask_new_fresh unix loc arguments) as (N1 & N2 & N3 & N4).
    set (w0 := ProcessTask_new unix loc arguments) in *. clearbody w0.
    match goal with
    | |- context [requests before_run ?w1] =>
        destruct (requests_spec before_run w1)
          as (w2 & E & H1 & H2 & H3 & H4 & H5 & H6 & H7 & H8)
    end.
    rewrite E. rewrite Hb, orb_true_r in H4.
    rewrite (run_canceled unix events outcome w2 H4).
    cbn in H1, H6. rewrite N1 in H1. rewrite N4 in H6.
    eexists. split; [reflexivity|]. cbn. rewrite H1. cbn.
    split; [reflexivity|]. split; [reflexivity|].
    unfold Future.state. cbn. rewrite H6, H4. reflexivity.
  - intros w. split; reflexivity.
Qed.

Lemma cancel_before_run_skips_process_witness :
  f_canceled (future canceled_task) = true /\
  f_exception (future canceled_task) = None /\
  existsb is_cancel_request [Req_cancel] = true /\
  (exists w', run true sample_events boom canceled_task = Some (tt, w') /\
     count is_processStart (calls w') = 0%nat /\
     Future.state (future w') = Future.Canceled) /\
  (exists w', execution true [Req_cancel] sample_events boom fresh_task = Some (tt, w') /\
     count is_processStart (calls w') = 0%nat /\
     Future.state (future w') = Future.Canceled).
Proof.
  split; [reflexivity|]. split; [reflexivity|]. split; [reflexivity|].
  destruct (cancel_before_run_skips_process true sample_events boom) as [Hrun [Hexec _]].
  split.
  - destruct (Hrun canceled_task eq_refl eq_refl) as [w' [E [_ [Hn Hs]]]].
    exists w'. split; [exact E|]. split; [exact Hn|exact Hs].
  - destruct (Hexec "module"%string ["--flag"%string] [Req_cancel] eq_refl)
      as [w' [E [_ [Hn Hs]]]].
    exists w'. split; [exact E|]. split; [exact Hn|exact Hs].
Defined.

(** ** C5: the terminal exception *)

Lemma epilogue_exceptions loc outcome :
  reported_exceptions (epilogue_calls loc outcome)
    = match run_exception loc outcome with Some e => [e] | None => [] end.
Proof.
  unfold epilogue_calls, run_exception.
  destruct (negb (ProcessError_eqb (error outcome) UnknownError));
    [reflexivity|].
  destruct (negb (exitCode outcome =? 0)); reflexivity.
Qed.

Lemma prologue_quiet unix loc arguments :
  reported_exceptions (prologue_calls unix loc arguments) = [] /\
  progress_reports (prologue_calls unix loc arguments) = [] /\
  count is_reportFinished (prologue_calls unix loc arguments) = 0%nat /\
  count is_reportException (prologue_calls unix loc arguments) = 0%nat.
Proof. destruct unix; repeat split. Qed.

(** C5. A run that was not canceled at entry, once its process has ended,
    reports an exception exactly when the process shows an error other
    than [UnknownError] or a non-zero exit code. After a process-level
    error the exception carries the exit code and the error string of the
    process; after a clean non-zero exit it carries the exit code and the
    content of the error channel; after a clean zero exit no exception is
    reported. *)
Theorem run_reports_exception (unix : bool) (events : list LoopEvent)
        (outcome : QProcess) (w : World) :
  f_canceled (future w) = false ->
  forallb event_defined events = true ->
  exists w' l,
    run unix events outcome w = Some (tt, w') /\
    calls w' = calls w ++ l /\
    (error outcome <> UnknownError ->
       reported_exceptions l
         = [{| re_location := location w; re_errorCode := exitCode outcome;
               re_errorString := errorString outcome |}] /\
       f_exception (future w')
         = Some {| re_location := location w; re_errorCode := exitCode outcome;
                   re_errorString := errorString outcome |}) /\
    (error outcome = UnknownError -> exitCode outcome <> 0 ->
       reported_exceptions l
         = [{| re_location := location w; re_errorCode := exitCode outcome;
               re_errorString := standardError outcome |}] /\
       f_exception (future w')
         = Some {| re_location := location w; re_errorCode := exitCode outcome;
                   re_errorString := standardError outcome |}) /\
    (error outcome = UnknownError -> exitCode outcome = 0 ->
       reported_exceptions l = [] /\
       f_exception (future w') = f_exception (future w)) /\
    (reported_exceptions l <> [] <->
       error outcome <> UnknownError \/ exitCode outcome <> 0).
Proof.
  intros Hc Hd.
  destruct (run_spawned unix events outcome w Hc Hd)
    as (w' & l & E & Hcalls & Hl & _ & _ & _ & _ & _ & Hex).
  exists w'. eexists. split; [exact E|]. split; [exact Hcalls|].
  destruct (prologue_quiet unix (location w) (args w)) as (Hp & _).
  destruct (loop_calls_quiet l Hl) as (_ & _ & _ & Hq).
  rewrite !reported_exceptions_app, Hp, Hq, epilogue_exceptions. cbn [app].
  rewrite Hex. unfold run_exception.
  destruct (ProcessError_eqb (error outcome) UnknownError) eqn:He; cbn [negb].
  - apply ProcessError_eqb_eq in He.
    destruct (exitCode outcome =? 0) eqn:Hz; cbn [negb].
    + apply Z.eqb_eq in Hz. repeat split; try congruence.
      * intros [H|H]; congruence.
    + apply Z.eqb_neq in Hz. repeat split; try congruence.
      * intros _. right. exact Hz.
  - assert (He' : error outcome <> UnknownError).
    { intros H. apply ProcessError_eqb_eq in H. congruence. }
    repeat split; try congruence.
    intros _. left. exact He'.
Qed.

Lemma run_reports_exception_witness :
  f_canceled (future started_task) = false /\
  forallb event_defined sample_events = true /\
  exists w',
    run true sample_events boom started_task = Some (tt, w') /\
    f_exception (future w')
      = Some {| re_location := "module"; re_errorCode := 2; re_errorString := "boom" |}.
Proof.
  split; [reflexivity|]. split; [reflexivity|].
  destruct (run_reports_exception true sample_events boom started_task eq_refl eq_refl)
    as (w' & l & E & _ & _ & Hnz & _).
  exists w'. split; [exact E|].
  apply Hnz; [reflexivity|discriminate].
Defined.

(** ** C8: one terminal report *)

Lemma epilogue_terminal loc outcome :
  exists pre,
    epilogue_calls loc outcome
      = pre ++ [Call_setProgressValueAndText 1000 (final_text outcome); Call_reportFinished] /\
    count is_reportFinished pre = 0%nat /\
    (count is_reportException pre <= 1)%nat /\
    progress_reports pre = [].
Proof.
  unfold epilogue_calls.
  destruct (negb (ProcessError_eqb (error outcome) UnknownError)).
  - eexists [_; _]. repeat split. cbn. lia.
  - destruct (negb (exitCode outcome =? 0)).
    + eexists [_; _; _]. repeat split. cbn. lia.
    + eexists [_]. repeat split. cbn. lia.
Qed.

(** C8. Every run of [run] that returns makes exactly one call to
    [reportFinished], as its last call, and at most one call to
    [reportException] before it, whether it was canceled at entry or went
    through the process; [start] reports nothing terminal, so the whole
    execution of a task from [start] on has exactly one terminal
    report. *)
Theorem run_reports_finished_once (unix : bool) (events : list LoopEvent)
        (outcome : QProcess) :
  forallb event_defined events = true ->
  (forall w, exists w' pre,
      run unix events outcome w = Some (tt, w') /\
      calls w' = calls w ++ pre ++ [Call_reportFinished] /\
      count is_reportFinished (pre ++ [Call_reportFinished]) = 1%nat /\
      (count is_reportException (pre ++ [Call_reportFinished]) <= 1)%nat /\
      f_finished (future w') = true) /\
  (forall loc arguments before_run, exists w' pre,
      execution unix before_run events outcome (ProcessTask_new unix loc arguments)
        = Some (tt, w') /\
      calls w' = pre ++ [Call_reportFinished] /\
      count is_reportFinished (calls w') = 1%nat /\
      (count is_reportException (calls w') <= 1)%nat /\
      f_finished (future w') = true).
Proof.
  intros Hd.
  assert (Hrun : forall w, exists w' pre,
      run unix events outcome w = Some (tt, w') /\
      calls w' = calls w ++ pre ++ [Call_reportFinished] /\
      count is_reportFinished (pre ++ [Call_reportFinished]) = 1%nat /\
      (count is_reportException (pre ++ [Call_reportFinished]) <= 1)%nat /\
      f_finished (future w') = true).
  { intros w. destruct (f_canceled (future w)) eqn:Hc.
    - rewrite (run_canceled unix events outcome w Hc).
      eexists. exists []. split; [reflexivity|]. repeat split. cbn. lia.
    - destruct (run_spawned unix events outcome w Hc Hd)
        as (w' & l & E & Hcalls & Hl & _ & _ & Hfin & _).
      destruct (epilogue_terminal (location w) outcome) as (pre & Hpre & P1 & P2 & _).
      destruct (prologue_quiet unix (location w) (args w)) as (_ & _ & Q1 & Q2).
      destruct (loop_calls_quiet l Hl) as (L1 & L2 & _ & _).
      exists w'.
      exists (prologue_calls unix (location w) (args w) ++ l ++ pre
              ++ [Call_setProgressValueAndText 1000 (final_text outcome)]).
      split; [exact E|]. split.
      + rewrite Hcalls, Hpre. rewrite <- !app_assoc. reflexivity.
      + rewrite !count_app, Q1, Q2, L1, L2, P1. cbn. split; [reflexivity|].
        split; [lia|exact Hfin]. }
  split; [exact Hrun|].
  intros loc arguments before_run. unfold execution, bind. rewrite start_eq.
  destruct (ProcessTask_new_fresh unix loc arguments) as (N1 & _).
  set (w0 := ProcessTask_new unix loc arguments) in *. clearbody w0.
  match goal with
  | |- context [requests before_run ?w1] =>
      destruct (requests_spec before_run w1) as (w2 & E & H1 & _)
  end.
  rewrite E. destruct (Hrun w2) as (w' & pre & Er & Hcalls & C1 & C2 & Hfin).
  exists w'. exists ([Call_setRunnable; Call_reportStarted; Call_threadPoolStart 0] ++ pre).
  split; [exact Er|]. rewrite Hcalls, H1. cbn [calls log with_calls with_future].
  rewrite N1. cbn [app].
  split; [reflexivity|].
  change (Call_setRunnable :: Call_reportStarted :: Call_threadPoolStart 0
            :: pre ++ [Call_reportFinished])
    with ([Call_setRunnable; Call_reportStarted; Call_threadPoolStart 0]
            ++ (pre ++ [Call_reportFinished])).
  rewrite !(count_app _ [Call_setRunnable; Call_reportStarted; Call_threadPoolStart 0]).
  rewrite C1. split; [reflexivity|]. split; [|exact Hfin].
  change (count is_reportException
            [Call_setRunnable; Call_reportStarted; Call_threadPoolStart 0]) with 0%nat.
  lia.
Qed.

Lemma run_reports_finished_once_witness :
  forallb event_defined sample_events = true /\
  (exists w', run true sample_events boom started_task = Some (tt, w') /\
     f_finished (future w') = true) /\
  (exists w', execution true [] sample_events crashed fresh_task = Some (tt, w') /\
     count is_reportFinished (calls w') = 1%nat).
Proof.
  split; [reflexivity|].
  destruct (run_reports_finished_once true sample_events boom eq_refl) as [Hrun _].
  destruct (run_reports_finished_once true sample_events crashed eq_refl) as [_ Hexec].
  split.
  - destruct (Hrun started_task) as (w' & pre & E & _ & _ & _ & Hfin).
    exists w'. split; [exact E|exact Hfin].
  - destruct (Hexec "module"%string ["--flag"%string] (@nil Request))
      as (w' & pre & E & _ & Hone & _).
    exists w'. split; [exact E|exact Hone].
Defined.

(** ** C10: the final progress report *)

(** C10, as amended. A run that finds the task canceled at entry only
    reports finished and leaves the progress value and the status text as
    they were. A run that gets past that check sets, on every outcome of
    the process and also right after reporting an exception, the progress
    value to 1000 and then reports finished, these being its last two
    calls, so the final progress value of a failed task is 1000 too; after
    a process-level error and after a clean zero exit the status text set
    with 1000 is the content of the error channel. *)
Theorem run_ends_at_1000 (unix : bool) (events : list LoopEvent)
        (outcome : QProcess) (w : World) :
  forallb event_defined events = true ->
  (f_canceled (future w) = true ->
     exists w',
       run unix events outcome w = Some (tt, w') /\
       calls w' = calls w ++ [Call_reportFinished] /\
       f_progressValue (future w') = f_progressValue (future w) /\
       f_progressText (future w') = f_progressText (future w) /\
       f_finished (future w') = true) /\
  (f_canceled (future w) = false ->
     exists w' pre text,
       run unix events outcome w = Some (tt, w') /\
       calls w' = calls w ++ pre
                    ++ [Call_setProgressValueAndText 1000 text; Call_reportFinished] /\
       f_progressValue (future w') = 1000 /\
       f_progressText (future w') = text /\
       f_finished (future w') = true /\
       (error outcome <> UnknownError \/ exitCode outcome <> 0 ->
          exists e, f_exception (future w') = Some e) /\
       (error outcome <> UnknownError -> text = standardError outcome) /\
       (error outcome = UnknownError -> exitCode outcome = 0 ->
          text = standardError outcome)).
Proof.
  intros Hd. split.
  - intros Hc. rewrite (run_canceled unix events outcome w Hc).
    eexists. split; [reflexivity|]. repeat split.
  - intros Hc.
    destruct (run_spawned unix events outcome w Hc Hd)
      as (w' & l & E & Hcalls & Hl & _ & _ & Hfin & Hv & Ht & Hex).
    destruct (epilogue_terminal (location w) outcome) as (pre & Hpre & _).
    exists w'. exists (prologue_calls unix (location w) (args w) ++ l ++ pre).
    exists (final_text outcome).
    split; [exact E|]. split.
    { rewrite Hcalls, Hpre, <- !app_assoc. reflexivity. }
    split; [exact Hv|]. split; [exact Ht|]. split; [exact Hfin|].
    rewrite Hex. unfold final_text, run_exception.
    destruct (ProcessError_eqb (error outcome) UnknownError) eqn:He; cbn [negb].
    + apply ProcessError_eqb_eq in He.
      destruct (exitCode outcome =? 0) eqn:Hz; cbn [negb].
      * apply Z.eqb_eq in Hz. repeat split; try congruence.
        intros [H|H]; congruence.
      * apply Z.eqb_neq in Hz. repeat split; try congruence.
        intros _. eexists. reflexivity.
    + assert (He' : error outcome <> UnknownError).
      { intros H. apply ProcessError_eqb_eq in H. congruence. }
      repeat split; try congruence.
      intros _. eexists. reflexivity.
Qed.

Lemma run_ends_at_1000_witness :
  forallb event_defined sample_events = true /\
  f_canceled (future canceled_task) = true /\
  f_canceled (future started_task) = false /\
  error crashed <> UnknownError /\
  (exists w',
     run true sample_events crashed canceled_task = Some (tt, w') /\
     f_progressValue (future w') = f_progressValue (future canceled_task) /\
     f_finished (future w') = true) /\
  (exists w',
     run true sample_events crashed started_task = Some (tt, w') /\
     f_progressValue (future w') = 1000 /\
     f_progressText (future w') = "partial"%string /\
     f_finished (future w') = true /\
     exists e, f_exception (future w') = Some e).
Proof.
  assert (Herr : error crashed <> UnknownError) by discriminate.
  split; [reflexivity|]. split; [reflexivity|]. split; [reflexivity|].
  split; [exact Herr|].
  split.
  - destruct (run_ends_at_1000 true sample_events crashed canceled_task eq_refl)
      as [Hcan _].
    destruct (Hcan eq_refl) as (w' & E & _ & Hv & _ & Hfin).
    exists w'. split; [exact E|]. split; [exact Hv|exact Hfin].
  - destruct (run_ends_at_1000 true sample_events crashed started_task eq_refl)
      as [_ Hrun].
    destruct (Hrun eq_refl) as (w' & pre & text & E & _ & Hv & Ht & Hfin & Hex & Herrtext & _).
    exists w'. split; [exact E|]. split; [exact Hv|].
    split; [rewrite Ht; exact (Herrtext Herr)|].
    split; [exact Hfin|]. apply Hex. left. exact Herr.
Defined.

(** C10, as stated, fails: [run] does not set the progress value to 1000
    unconditionally. A run that finds the task canceled at entry reports
    finished with the progress value still 0, whatever the process would
    have done. *)
Lemma run_canceled_at_entry_never_sets_1000 :
  f_canceled (future canceled_task) = true /\
  exists w',
    run true sample_events boom canceled_task = Some (tt, w') /\
    calls w' = calls canceled_task ++ [Call_reportFinished] /\
    f_finished (future w') = true /\
    f_progressValue (future w') = 0 /\
    f_progressValue (future w') <> 1000.
Proof.
  split; [reflexivity|].
  eexists. split; [vm_compute; reflexivity|].
  repeat split; try reflexivity. cbn. discriminate.
Qed.

(** ** C2: the range of the progress value *)

(** C2. A new task shows progress 0 and the constructor of the watcher
    seeds the counter with 0. Over a whole execution every progress value
    reported while the loop runs is within [[1,999]]; unless the task was
    canceled before [run], one more value follows, 1000, reported after
    the loop has quit, right before the final [reportFinished]. Hence all
    values the handle shows are within [[0,1000]]. *)
Theorem progress_stays_in_range (unix : bool) (loc : string) (arguments : list string)
        (before_run : list Request) (events : list LoopEvent) (outcome : QProcess) :
  forallb event_defined events = true ->
  f_progressValue (future (ProcessTask_new unix loc arguments)) = 0 /\
  (forall w, exists w', Watcher_new unix w = Some (tt, w') /\
                        progressValue (watcher w') = 0) /\
  exists w' mids,
    execution unix before_run events outcome (ProcessTask_new unix loc arguments)
      = Some (tt, w') /\
    Forall (fun v => 1 <= v <= 999) mids /\
    progress_reports (calls w')
      = mids ++ (if existsb is_cancel_request before_run then [] else [1000]) /\
    Forall (fun v => 0 <= v <= 1000) (0 :: progress_reports (calls w')) /\
    0 <= f_progressValue (future w') <= 1000 /\
    (existsb is_cancel_request before_run = false ->
       exists pre,
         calls w' = pre ++ [Call_setProgressValueAndText 1000 (final_text outcome);
                            Call_reportFinished] /\
         progress_reports pre = mids /\
         f_progressValue (future w') = 1000).
Proof.
  intros Hd.
  destruct (ProcessTask_new_fresh unix loc arguments) as (N1 & N2 & N3 & _).
  split; [exact N3|]. split.
  { intros w. destruct unix; (eexists; split; [reflexivity|reflexivity]). }
  unfold execution, bind. rewrite start_eq.
  set (w0 := ProcessTask_new unix loc arguments) in *. clearbody w0.
  match goal with
  | |- context [requests before_run ?w1] =>
      destruct (requests_spec before_run w1)
        as (w2 & E & H1 & H2 & H3 & H4 & H5 & _)
  end.
  rewrite E. cbn in H1, H4, H5. rewrite N1 in H1. rewrite N2 in H4. rewrite N3 in H5.
  cbn in H1, H4.
  destruct (existsb is_cancel_request before_run) eqn:Hb.
  - rewrite (run_canceled unix events outcome w2 H4).
    eexists. exists []. split; [reflexivity|]. cbn. rewrite H1, H5. cbn.
    split; [constructor|]. split; [reflexivity|].
    split; [repeat constructor; lia|]. split; [lia|]. discriminate.
  - destruct (run_spawned unix events outcome w2 H4 Hd)
      as (w' & l & Er & Hcalls & Hl & _ & _ & _ & Hv & _).
    destruct (epilogue_terminal (location w2) outcome) as (pre & Hpre & _ & _ & Hq).
    destruct (prologue_quiet unix (location w2) (args w2)) as (_ & Hp & _).
    pose proof (loop_calls_reports l Hl) as Hmid.
    assert (Hrep : progress_reports (calls w') = progress_reports l ++ [1000]).
    { rewrite Hcalls, Hpre, H1. rewrite !progress_reports_app, Hp, Hq. reflexivity. }
    exists w'. exists (progress_reports l).
    split; [exact Er|]. split; [exact Hmid|]. split; [exact Hrep|].
    split.
    { rewrite Hrep. constructor; [lia|]. apply Forall_app. split.
      - eapply Forall_impl; [|exact Hmid]. cbn. intros; lia.
      - repeat constructor; lia. }
    split; [lia|]. intros _.
    exists (calls w2 ++ prologue_calls unix (location w2) (args w2) ++ l ++ pre).
    split; [rewrite Hcalls, Hpre, <- !app_assoc; reflexivity|].
    split; [|exact Hv].
    rewrite H1, !progress_reports_app, Hp, Hq, app_nil_r. reflexivity.
Qed.

Lemma progress_stays_in_range_witness :
  forallb event_defined sample_events = true /\
  exists w',
    execution true [] sample_events clean_exit fresh_task = Some (tt, w') /\
    progress_reports (calls w') = [1; 500; 501; 1000] /\
    0 <= f_progressValue (future w') <= 1000.
Proof.
  split; [reflexivity|].
  destruct (progress_stays_in_range true "module"%string ["--flag"%string] []
              sample_events clean_exit eq_refl)
    as (_ & _ & w' & mids & E & _ & _ & _ & Hr & _).
  exists w'. split; [exact E|]. split; [|exact Hr].
  vm_compute in E. injection E as <-. reflexivity.
Defined.

(** ** C7: monotonicity while running *)




(** * Further properties of the watcher and the task *)

Lemma dispatch_after_event unix ev w w' :
  Int.INT_MIN <= progressValue (watcher w) <= 999 ->
  dispatch unix ev w = Some (tt, w') ->
  event_defined ev = true /\ w' = after_event unix ev w.
Proof.
  intros Hi E.
  destruct ev as [name comment|f|name|message| |rc|rc|r]; cbn [dispatch] in E;
    cbn [event_defined after_event].
  - rewrite (filterStarted_eq name comment w Hi) in E. injection E as <-. split; reflexivity.
  - destruct (Float32.static_cast_int (Float32.mul f Float32.f1000)) as [v|] eqn:Hv.
    + rewrite (filterProgress_eq f w v Hv) in E. injection E as <-. split; reflexivity.
    + unfold filterProgress, bind in E. rewrite (updateProgress_undefined f w Hv) in E.
      discriminate E.
  - rewrite (filterFinished_eq name w Hi) in E. injection E as <-. split; reflexivity.
  - injection E as <-. split; reflexivity.
  - injection E as <-. split; reflexivity.
  - destruct unix; cbn [andb].
    + rewrite resumeProcess_eq in E. injection E as <-.
      destruct (processPaused (watcher w)); split; reflexivity.
    + injection E as <-. split; reflexivity.
  - destruct unix; cbn [andb].
    + rewrite pauseProcess_eq in E. injection E as <-.
      destruct (processPaused (watcher w)), (f_paused (future w)); split; reflexivity.
    + injection E as <-. split; reflexivity.
  - destruct r; injection E as <-; split; reflexivity.
Qed.

Lemma after_event_counter unix ev w :
  counter_ok w -> counter_ok (after_event unix ev w).
Proof.
  unfold counter_ok. intros H.
  destruct ev as [name comment|f|name|message| |rc|rc|r]; cbn [after_event].
  - cbn. lia.
  - destruct (Float32.static_cast_int (Float32.mul f Float32.f1000)) as [v|]; [|exact H].
    pose proof (clamp_bounds 1 999 v ltac:(lia)). cbn. lia.
  - cbn. lia.
  - exact H.
  - exact H.
  - destruct (unix && processPaused (watcher w)); [|exact H].
    destruct (negb (rc =? 0)); exact H.
  - destruct (unix && negb (processPaused (watcher w)) && f_paused (future w)); [|exact H].
    destruct (negb (rc =? 0)); exact H.
  - destruct r; exact H.
Qed.

(** The loop, event by event: an invariant that the initial world
    satisfies and every slot keeps holds when the loop quits. *)
Lemma localLoop_exec_invariant unix (I : World -> Prop) events outcome : forall w w',
  counter_ok w -> I w ->
  (forall ev w1, In ev events -> event_defined ev = true -> counter_ok w1 ->
                 I w1 -> I (after_event unix ev w1)) ->
  localLoop_exec unix events outcome w = Some (tt, w') ->
  exists w1, w' = with_process (fun _ => outcome) w1 /\ counter_ok w1 /\ I w1.
Proof.
  induction events as [|ev rest IH]; intros w w' Hc Hi Hstep E.
  - cbn in E. injection E as <-. exists w. split; [reflexivity|split; assumption].
  - cbn [localLoop_exec] in E. unfold bind in E.
    destruct (dispatch unix ev w) as [[[] w1]|] eqn:Ed; [|discriminate E].
    assert (Hr : Int.INT_MIN <= progressValue (watcher w) <= 999)
      by (unfold counter_ok, Int.INT_MIN in *; lia).
    destruct (dispatch_after_event unix ev w w1 Hr Ed) as [Hd ->].
    apply (IH (after_event unix ev w) w').
    + apply after_event_counter. exact Hc.
    + apply Hstep; [left; reflexivity|exact Hd|exact Hc|exact Hi].
    + intros ev' w2 Hin. apply Hstep. right. exact Hin.
    + exact E.
Qed.

(** The calls of the loop, filtered: when each slot contributes, under
    the filter, a list that depends on its event only, the loop
    contributes these lists in the order of the events. *)
Lemma localLoop_exec_filter unix (p : Call -> bool) (F : LoopEvent -> list Call)
      (J : World -> Prop) events outcome : forall w w',
  counter_ok w -> J w ->
  (forall ev w1, event_defined ev = true -> counter_ok w1 -> J w1 ->
     J (after_event unix ev w1) /\
     exists l, calls (after_event unix ev w1) = calls w1 ++ l /\ filter p l = F ev) ->
  localLoop_exec unix events outcome w = Some (tt, w') ->
  exists w1 l, w' = with_process (fun _ => outcome) w1 /\ J w1 /\
    calls w1 = calls w ++ l /\ filter p l = flat_map F events.
Proof.
  induction events as [|ev rest IH]; intros w w' Hc Hj Hstep E.
  - cbn in E. injection E as <-. exists w, []. rewrite app_nil_r.
    split; [reflexivity|]. split; [exact Hj|]. split; reflexivity.
  - cbn [localLoop_exec] in E. unfold bind in E.
    destruct (dispatch unix ev w) as [[[] w1]|] eqn:Ed; [|discriminate E].
    assert (Hr : Int.INT_MIN <= progressValue (watcher w) <= 999)
      by (unfold counter_ok, Int.INT_MIN in *; lia).
    destruct (dispatch_after_event unix ev w w1 Hr Ed) as [Hd ->].
    destruct (Hstep ev w Hd Hc Hj) as [Hj1 [l1 [Hl1 Hf1]]].
    destruct (IH (after_event unix ev w) w' (after_event_counter unix ev w Hc) Hj1 Hstep E)
      as [w2 [l2 [Hw2 [Hj2 [Hl2 Hf2]]]]].
    exists w2, (l1 ++ l2). split; [exact Hw2|]. split; [exact Hj2|]. split.
    + rewrite Hl2, Hl1, app_assoc. reflexivity.
    + rewrite filter_app, Hf1, Hf2. reflexivity.
Qed.

Lemma entered_counter unix w : counter_ok (entered unix w).
Proof. unfold counter_ok, entered. destruct unix; cbn; lia. Qed.

Lemma entered_calls unix w :
  calls (entered unix w) = calls w ++ prologue_calls unix (location w) (args w).
Proof.
  unfold entered, prologue_calls. destruct unix; cbn; rewrite <- ?app_assoc; reflexivity.
Qed.

(** A run that was not canceled at entry, split at its local loop. *)
Lemma run_through_loop unix events outcome w :
  f_canceled (future w) = false ->
  forallb event_defined events = true ->
  exists w1 w',
    localLoop_exec unix events outcome (entered unix w)
      = Some (tt, with_process (fun _ => outcome) w1) /\
    counter_ok w1 /\
    run unix events outcome w = Some (tt, w') /\
    calls w' = calls w1 ++ epilogue_calls (location w) outcome /\
    watcher w' = watcher w1 /\
    f_paused (future w') = f_paused (future w1) /\
    f_canceled (future w') = f_canceled (future w1) /\
    standardError (process w') = EmptyString.
Proof.
  intros Hc Hd.
  destruct (localLoop_exec_spec unix events outcome (entered unix w)
              (entered_counter unix w) Hd) as [w1 [E [Hc1 S]]].
  destruct S as (S1 & _).
  exists w1.
  assert (Hrun : exists w',
    run unix events outcome w = Some (tt, w') /\
    calls w' = calls w1 ++ epilogue_calls (location w) outcome /\
    watcher w' = watcher w1 /\
    f_paused (future w') = f_paused (future w1) /\
    f_canceled (future w') = f_canceled (future w1) /\
    standardError (process w') = EmptyString).
  { unfold run, bind, isCanceled, gets. rewrite Hc.
    unfold process_start, Watcher_new, bind.
    unfold entered, log in E, S1.
    destruct unix; cbn in E, S1 |- *; rewrite E; clear E;
      unfold epilogue_calls, final_text; cbn;
      destruct (ProcessError_eqb (error outcome) UnknownError); cbn;
      destruct (exitCode outcome =? 0); cbn;
      (eexists; split; [reflexivity|]; cbn;
       rewrite ?S1, <- ?app_assoc; cbn; repeat split). }
  destruct Hrun as [w' Hrun]. exists w'.
  split; [exact E|]. split; [exact Hc1|]. exact Hrun.
Qed.

Ltac new_calls :=
  first [ exists []; rewrite app_nil_r; split; reflexivity
        | eexists; split; [cbn; rewrite <- ?app_assoc; reflexivity | reflexivity] ].

(** A run that was not canceled at entry, with the calls of its loop
    filtered as in [localLoop_exec_filter]. *)
Lemma run_filter unix (p : Call -> bool) (F : LoopEvent -> list Call)
      (J : World -> Prop) events outcome w :
  f_canceled (future w) = false ->
  forallb event_defined events = true ->
  J (entered unix w) ->
  (forall ev w1, event_defined ev = true -> counter_ok w1 -> J w1 ->
     J (after_event unix ev w1) /\
     exists l, calls (after_event unix ev w1) = calls w1 ++ l /\ filter p l = F ev) ->
  exists w1 w' l,
    run unix events outcome w = Some (tt, w') /\
    calls w' = calls w ++ prologue_calls unix (location w) (args w)
                 ++ l ++ epilogue_calls (location w) outcome /\
    filter p l = flat_map F events /\
    J w1 /\ watcher w' = watcher w1 /\
    f_paused (future w') = f_paused (future w1).
Proof.
  intros Hc Hd Hj Hstep.
  destruct (run_through_loop unix events outcome w Hc Hd)
    as (w1 & w' & E & Hc1 & Er & Hcalls & Hw & Hp & _).
  destruct (localLoop_exec_filter unix p F J events outcome _ _
              (entered_counter unix w) Hj Hstep E) as (w2 & l & Hw2 & Hj2 & Hl & Hf).
  assert (Hsame : watcher w1 = watcher w2 /\ future w1 = future w2 /\ calls w1 = calls w2).
  { destruct w1, w2. cbn in Hw2. injection Hw2. intros. subst. repeat split. }
  destruct Hsame as (Hs1 & Hs2 & Hs3).
  exists w2, w', l. split; [exact Er|]. split.
  - rewrite Hcalls, Hs3, Hl, entered_calls, <- !app_assoc. reflexivity.
  - split; [exact Hf|]. split; [exact Hj2|].
    rewrite Hw, Hp, Hs1, Hs2. split; reflexivity.
Qed.

Lemma flat_map_xml_errors loc events :
  flat_map (fun ev => match ev with
                      | Sig_filterXmlError message => [tagged loc message]
                      | _ => []
                      end) events
    = map (tagged loc) (xml_errors events).
Proof.
  induction events as [|ev rest IH]; [reflexivity|].
  destruct ev; cbn; rewrite ?IH; reflexivity.
Qed.

Lemma epilogue_filter_none (p : Call -> bool) loc outcome :
  (forall e, p (Call_reportException e) = false) ->
  p Call_readAllStandardError = false ->
  (forall v t, p (Call_setProgressValueAndText v t) = false) ->
  p Call_reportFinished = false ->
  filter p (epilogue_calls loc outcome) = [].
Proof.
  intros H1 H2 H3 H4. unfold epilogue_calls.
  destruct (negb (ProcessError_eqb (error outcome) UnknownError));
    [|destruct (negb (exitCode outcome =? 0))];
    cbn; rewrite ?H1, ?H2, ?H3, ?H4; reflexivity.
Qed.

(** X1. Parse errors of the progress stream are logged and nothing else
    is: the [qDebug] records a run adds are exactly the messages of its
    [filterXmlError] signals, in order, each tagged with the location of
    the task. *)
Theorem xml_errors_logged (unix : bool) (events : list LoopEvent)
        (outcome : QProcess) (w : World) :
  f_canceled (future w) = false ->
  forallb event_defined events = true ->
  exists w',
    run unix events outcome w = Some (tt, w') /\
    filter is_qDebug (calls w')
      = filter is_qDebug (calls w) ++ map (tagged (location w)) (xml_errors events).
Proof.
  intros Hc Hd.
  destruct (run_filter unix is_qDebug
              (fun ev => match ev with
                         | Sig_filterXmlError message => [tagged (location w) message]
                         | _ => []
                         end)
              (fun w1 => w_location (watcher w1) = location w)
              events outcome w Hc Hd)
    as (w1 & w' & l & Er & Hcalls & Hf & _).
  - unfold entered. destruct unix; reflexivity.
  - intros ev w1 Hdef Hc1 Hj.
    destruct ev as [name comment|f|name|message| |rc|rc|r]; cbn [after_event].
    + split; [exact Hj|new_calls].
    + cbn in Hdef.
      destruct (Float32.static_cast_int (Float32.mul f Float32.f1000)); [|discriminate].
      split; [exact Hj|new_calls].
    + split; [exact Hj|new_calls].
    + split; [exact Hj|]. rewrite Hj. new_calls.
    + split; [exact Hj|new_calls].
    + destruct (unix && processPaused (watcher w1)); [|split; [exact Hj|new_calls]].
      destruct (negb (rc =? 0)); (split; [exact Hj|new_calls]).
    + destruct (unix && negb (processPaused (watcher w1)) && f_paused (future w1));
        [|split; [exact Hj|new_calls]].
      destruct (negb (rc =? 0)); (split; [exact Hj|new_calls]).
    + destruct r; (split; [exact Hj|new_calls]).
  - exists w'. split; [exact Er|].
    rewrite Hcalls, !filter_app, Hf, flat_map_xml_errors.
    rewrite epilogue_filter_none by reflexivity.
    replace (filter is_qDebug (prologue_calls unix (location w) (args w))) with (@nil Call)
      by (destruct unix; reflexivity).
    rewrite app_nil_r. reflexivity.
Qed.

Lemma xml_errors_logged_witness :
  f_canceled (future started_task) = false /\
  forallb event_defined sample_events = true /\
  exists w',
    run true sample_events boom started_task = Some (tt, w') /\
    filter is_qDebug (calls w') = [tagged "module" "unexpected token"].
Proof.
  split; [reflexivity|]. split; [reflexivity|].
  destruct (xml_errors_logged true sample_events boom started_task eq_refl eq_refl)
    as (w' & E & H).
  exists w'. split; [exact E|exact H].
Defined.

Ltac split_ifs :=
  repeat match goal with
         | |- context [if ?b then _ else _] => destruct b eqn:?
         end.

Ltac by_event ev Hdef :=
  destruct ev as [name comment|f|name|message| |rc|rc|[|b]];
  cbn [after_event andb negb];
  [ | cbn in Hdef;
      destruct (Float32.static_cast_int (Float32.mul f Float32.f1000)); [|discriminate]
    | | | | | | | ];
  split_ifs;
  try (match goal with
       | H : _ = true |- _ => cbn in H; discriminate H
       | H : _ = false |- _ => cbn in H; discriminate H
       end).

(** X2. [process.terminate()] is called once for every [canceled] signal
    the loop delivers and at no other time. *)
Theorem terminate_once_per_canceled_signal (unix : bool) (events : list LoopEvent)
        (outcome : QProcess) (w : World) :
  f_canceled (future w) = false ->
  forallb event_defined events = true ->
  exists w',
    run unix events outcome w = Some (tt, w') /\
    count is_processTerminate (calls w')
      = (count is_processTerminate (calls w)
         + List.length (filter is_canceled_signal events))%nat.
Proof.
  intros Hc Hd.
  destruct (run_filter unix is_processTerminate
              (fun ev => if is_canceled_signal ev then [Call_processTerminate] else [])
              (fun _ => True) events outcome w Hc Hd I)
    as (w1 & w' & l & Er & Hcalls & Hf & _).
  - intros ev w1 Hdef Hc1 _. by_event ev Hdef; (split; [exact I|new_calls]).
  - exists w'. split; [exact Er|].
    unfold count. rewrite Hcalls, !filter_app, Hf, !length_app.
    rewrite epilogue_filter_none by reflexivity.
    replace (filter is_processTerminate (prologue_calls unix (location w) (args w)))
      with (@nil Call) by (destruct unix; reflexivity).
    assert (Hn : List.length
                   (flat_map (fun ev => if is_canceled_signal ev
                                        then [Call_processTerminate] else []) events)
                 = List.length (filter is_canceled_signal events)).
    { clear. induction events as [|ev rest IH]; [reflexivity|].
      destruct ev; cbn; rewrite ?IH; reflexivity. }
    rewrite Hn. cbn [List.length]. lia.
Qed.

Lemma terminate_once_per_canceled_signal_witness :
  f_canceled (future started_task) = false /\
  forallb event_defined [Ev_request Req_cancel; Sig_canceled; Sig_filterFinished "f"] = true /\
  exists w',
    run true [Ev_request Req_cancel; Sig_canceled; Sig_filterFinished "f"] crashed started_task
      = Some (tt, w') /\
    count is_processTerminate (calls w') = 1%nat.
Proof.
  split; [reflexivity|]. split; [reflexivity|].
  destruct (terminate_once_per_canceled_signal true
              [Ev_request Req_cancel; Sig_canceled; Sig_filterFinished "f"]
              crashed started_task eq_refl eq_refl) as (w' & E & H).
  exists w'. split; [exact E|exact H].
Defined.

(** X3. Built without [Q_OS_UNIX], a run never sends a signal, never
    starts the polling timer and never touches the paused flag of the
    future, whatever pause and resume requests and signals arrive; its
    watcher ends with [processPaused] false. *)
Theorem no_suspension_without_unix (events : list LoopEvent)
        (outcome : QProcess) (w : World) :
  f_canceled (future w) = false ->
  forallb event_defined events = true ->
  exists w',
    run false events outcome w = Some (tt, w') /\
    filter is_suspension_call (calls w') = filter is_suspension_call (calls w) /\
    processPaused (watcher w') = false.
Proof.
  intros Hc Hd.
  destruct (run_filter false is_suspension_call (fun _ => [])
              (fun w1 => processPaused (watcher w1) = false) events outcome w Hc Hd eq_refl)
    as (w1 & w' & l & Er & Hcalls & Hf & Hj & Hw & _).
  - intros ev w1 Hdef Hc1 Hj. by_event ev Hdef; (split; [exact Hj|new_calls]).
  - exists w'. split; [exact Er|]. split; [|rewrite Hw; exact Hj].
    rewrite Hcalls, !filter_app, Hf.
    rewrite epilogue_filter_none by reflexivity.
    replace (flat_map (fun _ : LoopEvent => @nil Call) events) with (@nil Call)
      by (clear; induction events; [reflexivity|assumption]).
    cbn. rewrite app_nil_r. reflexivity.
Qed.

Lemma no_suspension_without_unix_witness :
  f_canceled (future started_task) = false /\
  forallb event_defined sample_events = true /\
  exists w',
    run false sample_events clean_exit started_task = Some (tt, w') /\
    filter is_suspension_call (calls w') = [] /\
    processPaused (watcher w') = false.
Proof.
  split; [reflexivity|]. split; [reflexivity|].
  destruct (no_suspension_without_unix sample_events clean_exit started_task
              eq_refl eq_refl) as (w' & E & H1 & H2).
  exists w'. split; [exact E|]. split; [exact H1|exact H2].
Defined.

(** X4. A run that is not canceled at entry calls [process.start]
    exactly once, with the location and the arguments of the task, and
    does so before it constructs the watcher: every call of the run that
    the log records (progress range and reports, timer, signals,
    [terminate], [qDebug], reads of the error channel, exception and
    [reportFinished]) comes after it. *)
Theorem process_started_once_first (unix : bool) (events : list LoopEvent)
        (outcome : QProcess) (w : World) :
  f_canceled (future w) = false ->
  forallb event_defined events = true ->
  exists w' rest,
    run unix events outcome w = Some (tt, w') /\
    calls w' = calls w ++ Call_processStart (location w) (args w) :: rest /\
    count is_processStart rest = 0%nat.
Proof.
  intros Hc Hd.
  destruct (run_spawned unix events outcome w Hc Hd)
    as (w' & l & E & Hcalls & Hl & _).
  destruct (loop_calls_quiet l Hl) as (_ & _ & L3 & _).
  exists w'.
  exists ((Call_setProgressRange 0 1000 :: (if unix then [Call_timerStart 500] else []))
          ++ l ++ epilogue_calls (location w) outcome).
  split; [exact E|]. split; [exact Hcalls|].
  rewrite !count_app, L3. unfold count.
  rewrite epilogue_filter_none by reflexivity.
  destruct unix; reflexivity.
Qed.

Lemma process_started_once_first_witness :
  f_canceled (future started_task) = false /\
  forallb event_defined sample_events = true /\
  exists w' rest,
    run true sample_events boom started_task = Some (tt, w') /\
    calls w' = calls started_task ++ Call_processStart "module" ["--flag"%string] :: rest /\
    count is_processStart rest = 0%nat.
Proof.
  split; [reflexivity|]. split; [reflexivity|].
  exact (process_started_once_first true sample_events boom started_task eq_refl eq_refl).
Defined.

Lemma with_process_same outcome w1 w2 :
  with_process (fun _ => outcome) w1 = with_process (fun _ => outcome) w2 ->
  watcher w1 = watcher w2 /\ future w1 = future w2 /\ calls w1 = calls w2 /\
  location w1 = location w2.
Proof.
  destruct w1, w2. cbn. intros H. injection H. intros. subst. repeat split.
Qed.

(** X5. From a handle that shows progress 0, the progress value of the
    handle and the counter of the watcher agree when the loop is entered
    and after every event, and both stay within [[0,999]]: the [++] of
    [incrementProgress] never overflows, and the watcher [run] leaves
    behind is that of the loop. *)
Theorem handle_shows_counter (unix : bool) (events : list LoopEvent)
        (outcome : QProcess) (w : World) :
  f_canceled (future w) = false ->
  f_progressValue (future w) = 0 ->
  forallb event_defined events = true ->
  running (entered unix w) /\
  exists w1 w',
    localLoop_exec unix events outcome (entered unix w)
      = Some (tt, with_process (fun _ => outcome) w1) /\
    running w1 /\
    run unix events outcome w = Some (tt, w') /\
    watcher w' = watcher w1.
Proof.
  intros Hc H0 Hd.
  assert (Hlink : f_progressValue (future (entered unix w))
                  = progressValue (watcher (entered unix w))).
  { unfold entered. destruct unix; cbn; exact H0. }
  split; [split; [apply entered_counter|exact Hlink]|].
  destruct (run_through_loop unix events outcome w Hc Hd)
    as (w1 & w' & E & Hc1 & Er & _ & Hw & _).
  assert (Hstep : forall ev x, In ev events -> event_defined ev = true -> counter_ok x ->
            f_progressValue (future x) = progressValue (watcher x) ->
            f_progressValue (future (after_event unix ev x))
              = progressValue (watcher (after_event unix ev x))).
  { intros ev x _ Hdef Hcx Hlx.
    by_event ev Hdef; cbn; try assumption; reflexivity. }
  destruct (localLoop_exec_invariant unix
              (fun x => f_progressValue (future x) = progressValue (watcher x))
              events outcome _ _ (entered_counter unix w) Hlink Hstep E)
    as (w2 & Hw2 & _ & Hl2).
  destruct (with_process_same outcome w1 w2 Hw2) as (S1 & S2 & _).
  exists w1, w'. split; [exact E|]. split.
  - split; [exact Hc1|]. rewrite S1, S2. exact Hl2.
  - split; [exact Er|exact Hw].
Qed.

Lemma handle_shows_counter_witness :
  f_canceled (future started_task) = false /\
  f_progressValue (future started_task) = 0 /\
  forallb event_defined sample_events = true /\
  exists w1,
    localLoop_exec true sample_events boom (entered true started_task)
      = Some (tt, with_process (fun _ => boom) w1) /\
    running w1.
Proof.
  split; [reflexivity|]. split; [reflexivity|]. split; [reflexivity|].
  destruct (handle_shows_counter true sample_events boom started_task
              eq_refl eq_refl eq_refl) as (_ & w1 & w' & E & Hr & _).
  exists w1. split; [exact E|exact Hr].
Defined.





(** X7. Pause and resume undo each other. Under [Q_OS_UNIX], from a
    watcher whose process is not stopped, a pause request followed by a
    poll of the timer (signal delivered), then a resume request followed
    by the [resumed] signal (signal delivered), leaves the watcher as it
    was and the future unpaused; the only calls made are one [SIGSTOP]
    and one [SIGCONT]. *)
Theorem pause_resume_round_trip (w : World) :
  processPaused (watcher w) = false ->
  exists w',
    (dispatch true (Ev_request (Req_setPaused true)) ;;
     dispatch true (Sig_pollPauseTimeout 0) ;;
     dispatch true (Ev_request (Req_setPaused false)) ;;
     dispatch true (Sig_resumed 0)) w = Some (tt, w') /\
    watcher w' = watcher w /\
    future w' = Future.set_paused false (future w) /\
    process w' = process w /\
    calls w' = calls w ++ [Call_kill SIGSTOP; Call_kill SIGCONT].
Proof.
  intros Hp. unfold bind. cbn [dispatch request modify].
  rewrite pauseProcess_eq. cbn. rewrite Hp. cbn.
  eexists. split; [reflexivity|]. cbn.
  rewrite <- app_assoc. repeat split.
  destruct w as [loc ar fu pr [wl pp pv] cs]. cbn in Hp |- *. rewrite Hp. reflexivity.
Qed.

Lemma pause_resume_round_trip_witness :
  processPaused (watcher half_done) = false /\
  exists w',
    (dispatch true (Ev_request (Req_setPaused true)) ;;
     dispatch true (Sig_pollPauseTimeout 0) ;;
     dispatch true (Ev_request (Req_setPaused false)) ;;
     dispatch true (Sig_resumed 0)) half_done = Some (tt, w') /\
    watcher w' = watcher half_done /\
    calls w' = calls half_done ++ [Call_kill SIGSTOP; Call_kill SIGCONT].
Proof.
  split; [reflexivity|].
  destruct (pause_resume_round_trip half_done eq_refl) as (w' & E & H1 & _ & _ & H4).
  exists w'. split; [exact E|]. split; [exact H1|exact H4].
Defined.

(** X8. A pause asked for before [run] is replayed: when the future is
    already paused at entry and the task is not canceled, the first poll
    of the timer sends [SIGSTOP], as the first call after the process
    start and the construction of the watcher. *)
Theorem pause_before_run_replayed (rc : Z) (events : list LoopEvent)
        (outcome : QProcess) (w : World) :
  f_canceled (future w) = false ->
  f_paused (future w) = true ->
  forallb event_defined events = true ->
  exists w' rest,
    run true (Sig_pollPauseTimeout rc :: events) outcome w = Some (tt, w') /\
    calls w' = calls w ++ prologue_calls true (location w) (args w)
                 ++ Call_kill SIGSTOP :: rest.
Proof.
  intros Hc Hp Hd.
  destruct (run_through_loop true (Sig_pollPauseTimeout rc :: events) outcome w Hc)
    as (w1 & w' & E & _ & Er & Hcalls & _); [exact Hd|].
  cbn [localLoop_exec] in E. unfold bind in E. cbn [dispatch] in E.
  rewrite pauseProcess_eq in E.
  replace (processPaused (watcher (entered true w)) || negb (f_paused (future (entered true w))))
    with false in E by (unfold entered; cbn; rewrite Hp; reflexivity).
  set (x := if negb (rc =? 0)
            then with_future (Future.set_paused false)
                   (log [Call_setPaused false] (log [Call_kill SIGSTOP] (entered true w)))
            else set_processPaused_in true (log [Call_kill SIGSTOP] (entered true w))) in E.
  assert (Hx : counter_ok x /\ exists t, calls x = calls (entered true w) ++ Call_kill SIGSTOP :: t).
  { unfold x. destruct (negb (rc =? 0)); (split; [apply entered_counter|]).
    - exists [Call_setPaused false]. cbn [calls with_future log with_calls].
      rewrite <- app_assoc. reflexivity.
    - exists []. reflexivity. }
  destruct Hx as [Hcx [t Ht]].
  destruct (localLoop_exec_spec true events outcome x Hcx Hd) as (w2 & E2 & _ & S).
  destruct S as (_ & _ & _ & _ & _ & _ & _ & l & Hl & _).
  rewrite E2 in E.
  assert (E' : with_process (fun _ => outcome) w2 = with_process (fun _ => outcome) w1)
    by congruence.
  destruct (with_process_same outcome w2 w1 E') as (_ & _ & S3 & _).
  exists w'. exists (t ++ l ++ epilogue_calls (location w) outcome).
  split; [exact Er|].
  rewrite Hcalls, <- S3, Hl, Ht, entered_calls.
  rewrite <- !app_assoc. cbn [app]. rewrite <- ?app_assoc. reflexivity.
Qed.

Lemma pause_before_run_replayed_witness :
  f_canceled (future (with_future (Future.set_paused true) started_task)) = false /\
  f_paused (future (with_future (Future.set_paused true) started_task)) = true /\
  forallb event_defined sample_events = true /\
  exists w' rest,
    run true (Sig_pollPauseTimeout 0 :: sample_events) clean_exit
        (with_future (Future.set_paused true) started_task) = Some (tt, w') /\
    calls w' = calls started_task ++ prologue_calls true "module" ["--flag"%string]
                 ++ Call_kill SIGSTOP :: rest.
Proof.
  split; [reflexivity|]. split; [reflexivity|]. split; [reflexivity|].
  exact (pause_before_run_replayed 0 sample_events clean_exit
           (with_future (Future.set_paused true) started_task) eq_refl eq_refl eq_refl).
Defined.

(** ** Round to nearest even, bit by bit *)

Lemma iter_pos_nat {A : Type} (g : A -> A) p : forall x,
  iter_pos g p x = Nat.iter (Pos.to_nat p) g x.
Proof.
  induction p as [p IH|p IH|]; intros x; cbn [iter_pos].
  - rewrite !IH, Pos2Nat.inj_xI.
    replace (S (2 * Pos.to_nat p)) with (S (Pos.to_nat p + Pos.to_nat p)) by lia.
    rewrite Nat.iter_succ_r, Nat.iter_add. reflexivity.
  - rewrite !IH, Pos2Nat.inj_xO.
    replace (2 * Pos.to_nat p)%nat with (Pos.to_nat p + Pos.to_nat p)%nat by lia.
    rewrite Nat.iter_add. reflexivity.
  - reflexivity.
Qed.

Lemma shr_1_eq mrs :
  0 <= shr_m mrs ->
  shr_1 mrs = {| shr_m := shr_m mrs / 2; shr_r := Z.odd (shr_m mrs);
                 shr_s := shr_r mrs || shr_s mrs |}.
Proof.
  intros H. pose proof (shr_1_m mrs H) as Hm.
  destruct mrs as [m r s]. cbn [shr_m shr_r shr_s] in *.
  destruct m as [|p|p]; try lia.
  - reflexivity.
  - destruct p; unfold shr_1 in *; cbn [shr_m] in Hm; rewrite <- Hm; reflexivity.
Qed.

Lemma shr_iter_bits (M : Z) (n : nat) :
  0 <= M ->
  Nat.iter (S n) shr_1 {| shr_m := M; shr_r := false; shr_s := false |}
    = {| shr_m := M / 2 ^ Z.of_nat (S n);
         shr_r := Z.odd (M / 2 ^ Z.of_nat n);
         shr_s := negb (M mod 2 ^ Z.of_nat n =? 0) |}.
Proof.
  intros HM. induction n as [|n IH].
  - cbn [Nat.iter]. rewrite shr_1_eq by (cbn; lia). cbn.
    rewrite Z.div_1_r, Z.mod_1_r. reflexivity.
  - change (Nat.iter (S (S n)) shr_1 ?x) with (shr_1 (Nat.iter (S n) shr_1 x)).
    rewrite IH.
    assert (Hp : 0 < 2 ^ Z.of_nat n) by (apply Z.pow_pos_nonneg; lia).
    assert (Hp' : 0 < 2 ^ Z.of_nat (S n)) by (apply Z.pow_pos_nonneg; lia).
    rewrite shr_1_eq by (cbn [shr_m]; apply Z.div_pos; lia).
    cbn [shr_m shr_r shr_s]. f_equal.
    + rewrite Z.div_div by lia. f_equal.
      rewrite (Nat2Z.inj_succ (S n)), Z.pow_succ_r by lia. lia.
    + rewrite (Nat2Z.inj_succ n), Z.pow_succ_r by lia.
      rewrite (Z.mul_comm 2), Z.rem_mul_r by lia.
      rewrite Zmod_odd.
      pose proof (Z.mod_pos_bound M (2 ^ Z.of_nat n) Hp) as Hb.
      destruct (Z.odd (M / 2 ^ Z.of_nat n)); cbn [orb].
      * symmetry. apply negb_true_iff, Z.eqb_neq. lia.
      * rewrite Z.mul_0_r, Z.add_0_r. reflexivity.
Qed.

Lemma round_nearest_even_bits (M : Z) (n : nat) :
  0 <= M ->
  round_nearest_even (M / 2 ^ Z.of_nat (S n))
    (loc_of_shr_record
       {| shr_m := M / 2 ^ Z.of_nat (S n);
          shr_r := Z.odd (M / 2 ^ Z.of_nat n);
          shr_s := negb (M mod 2 ^ Z.of_nat n =? 0) |})
    = round_half_even M (Z.of_nat (S n)).
Proof.
  intros HM. unfold round_half_even.
  rewrite (Nat2Z.inj_succ n), Z.pow_succ_r by lia.
  set (h := 2 ^ Z.of_nat n).
  assert (Hh : 0 < h) by (apply Z.pow_pos_nonneg; lia).
  rewrite (Z.mul_comm 2 h), Z.rem_mul_r by lia.
  rewrite Zmod_odd.
  pose proof (Z.mod_pos_bound M h Hh) as Hb.
  set (lo := M mod h) in *.
  set (m1 := M / (h * 2)).
  destruct (Z.odd (M / h)); destruct (lo =? 0) eqn:Hlo; cbn [negb loc_of_shr_record];
    [apply Z.eqb_eq in Hlo|apply Z.eqb_neq in Hlo|apply Z.eqb_eq in Hlo|apply Z.eqb_neq in Hlo].
  - cbn [round_nearest_even].
    replace (h * 2 <? 2 * (lo + h * 1)) with false by (symmetry; apply Z.ltb_ge; lia).
    replace (2 * (lo + h * 1) =? h * 2) with true by (symmetry; apply Z.eqb_eq; lia).
    cbn [orb andb]. rewrite <- Z.negb_odd.
    destruct (Z.odd m1); cbn; lia.
  - cbn [round_nearest_even].
    replace (h * 2 <? 2 * (lo + h * 1)) with true by (symmetry; apply Z.ltb_lt; lia).
    reflexivity.
  - cbn [round_nearest_even].
    replace (h * 2 <? 2 * (lo + h * 0)) with false by (symmetry; apply Z.ltb_ge; lia).
    replace (2 * (lo + h * 0) =? h * 2) with false by (symmetry; apply Z.eqb_neq; lia).
    cbn. lia.
  - cbn [round_nearest_even].
    replace (h * 2 <? 2 * (lo + h * 0)) with false by (symmetry; apply Z.ltb_ge; lia).
    replace (2 * (lo + h * 0) =? h * 2) with false by (symmetry; apply Z.eqb_neq; lia).
    cbn. lia.
Qed.

Lemma round_half_even_0 m : round_half_even m 0 = m.
Proof.
  unfold round_half_even. rewrite Z.pow_0_r, Z.div_1_r, Z.mod_1_r. cbn. lia.
Qed.

Lemma round_half_even_range m k :
  m / 2 ^ k <= round_half_even m k <= m / 2 ^ k + 1.
Proof.
  unfold round_half_even.
  destruct ((2 ^ k <? 2 * (m mod 2 ^ k))
            || ((2 * (m mod 2 ^ k) =? 2 ^ k) && Z.odd (m / 2 ^ k))); lia.
Qed.

Section Format2.
Variables prec emax : Z.

Lemma shr_fexp_round m e :
  0 <= m ->
  exists mrs,
    shr_fexp prec emax m e loc_Exact
      = (mrs, Z.max e (fexp prec emax (Zdigits2 m + e))) /\
    round_nearest_even (shr_m mrs) (loc_of_shr_record mrs)
      = round_half_even m (Z.max e (fexp prec emax (Zdigits2 m + e)) - e).
Proof.
  intros Hm. unfold shr_fexp, shr. cbn [shr_record_of_loc].
  destruct (fexp prec emax (Zdigits2 m + e) - e) as [|p|p] eqn:Hn.
  - eexists; split; [f_equal; lia|].
    replace (Z.max e (fexp prec emax (Zdigits2 m + e)) - e) with 0 by lia.
    rewrite round_half_even_0. reflexivity.
  - eexists; split; [f_equal; lia|].
    replace (Z.max e (fexp prec emax (Zdigits2 m + e)) - e) with (Zpos p) by lia.
    rewrite iter_pos_nat.
    destruct (Pos2Nat.is_succ p) as [n Hn'].
    rewrite Hn', (shr_iter_bits m n Hm). cbn [shr_m].
    rewrite (round_nearest_even_bits m n Hm).
    f_equal. rewrite <- Hn'. apply positive_nat_Z.
  - eexists; split; [f_equal; lia|].
    replace (Z.max e (fexp prec emax (Zdigits2 m + e)) - e) with 0 by lia.
    rewrite round_half_even_0. reflexivity.
Qed.

Lemma binary_round_aux_round M E :
  let e1 := Z.max E (fexp prec emax (Zpos (digits2_pos M) + E)) in
  let r := round_half_even (Zpos M) (e1 - E) in
  let e2 := Z.max e1 (fexp prec emax (Zdigits2 r + e1)) in
  binary_round_aux prec emax false (Zpos M) E loc_Exact =
    match r / 2 ^ (e2 - e1) with
    | Z0 => S754_zero false
    | Zpos p => if e2 <=? emax - prec then S754_finite false p e2 else S754_infinity false
    | Zneg _ => S754_nan
    end.
Proof.
  intros e1 r e2. unfold binary_round_aux.
  destruct (shr_fexp_round (Zpos M) E ltac:(lia)) as [mrs1 [H1 H1r]].
  cbn [Zdigits2] in H1, H1r. fold e1 in H1, H1r. rewrite H1, H1r. fold r.
  assert (Hr : 0 <= r).
  { pose proof (round_half_even_range (Zpos M) (e1 - E)) as Hrng. fold r in Hrng.
    assert (0 <= Zpos M / 2 ^ (e1 - E)); [|lia].
    apply Z.div_pos; [lia|]. apply Z.pow_pos_nonneg; unfold e1; lia. }
  destruct (shr_fexp_spec prec emax r e1 Hr) as [mrs2 [H2 H2m]].
  cbv zeta in H2, H2m. fold e2 in H2, H2m. rewrite H2, H2m. reflexivity.
Qed.

End Format2.

(** ** The value of a binary32 rounding *)

Lemma Zdigits2_pos_lt r : 0 < r -> r < 2 ^ Zdigits2 r.
Proof. destruct r as [|p|p]; try lia. intros _. apply Zdigits2_lt. Qed.

Lemma Zdigits2_pos_ge r : 0 < r -> 2 ^ (Zdigits2 r - 1) <= r.
Proof. destruct r as [|p|p]; try lia. intros _. apply Zdigits2_ge. Qed.

Lemma Zdigits2_nonneg r : 0 <= Zdigits2 r.
Proof. destruct r; cbn; lia. Qed.

(** Rounding the positive dyadic [M * 2^E] to binary32: the mantissa is
    cut at the exponent [e1] of the format and rounded to the nearest,
    ties to even; unless the result overflows, its integer part is that
    of [r * 2^e1]. *)
Lemma round32_trunc_exact (M : positive) (E : Z) :
  let e1 := Z.max E (Z.max (Zpos (digits2_pos M) + E - 24) (-149)) in
  let r := round_half_even (Zpos M) (e1 - E) in
  r <= 2 ^ 24 /\
  match binary_round_aux Float32.prec Float32.emax false (Zpos M) E loc_Exact with
  | S754_infinity _ => True
  | S754_nan => False
  | x => Float32.trunc x = Some (Z.shiftl r e1)
  end.
Proof.
  intros e1 r.
  pose proof (binary_round_aux_round Float32.prec Float32.emax M E) as Heq.
  cbv zeta in Heq. rewrite !fexp32 in Heq. fold e1 in Heq. fold r in Heq.
  rewrite Heq. clear Heq.
  pose proof (round_half_even_range (Zpos M) (e1 - E)) as Hr. fold r in Hr.
  set (m1 := Zpos M / 2 ^ (e1 - E)) in *.
  pose proof (Zdigits2_lt M) as HdM. pose proof (Zdigits2_ge M) as HdM'.
  set (d := Zpos (digits2_pos M)) in *.
  assert (Hd : 0 < d) by (unfold d; lia).
  assert (He1 : E <= e1 /\ d + E - 24 <= e1 /\ -149 <= e1) by (unfold e1; lia).
  assert (HK : 0 < 2 ^ (e1 - E)) by (apply Z.pow_pos_nonneg; lia).
  assert (Hm1 : 0 <= m1 < 2 ^ 24).
  { split; [apply Z.div_pos; lia|].
    apply Z.div_lt_upper_bound; [exact HK|].
    eapply Z.lt_le_trans; [exact HdM|].
    rewrite <- Z.pow_add_r by lia. apply Z.pow_le_mono_r; lia. }
  split; [lia|].
  assert (Hdr : Zdigits2 r <= 25).
  { apply Zdigits2_le; [lia|]. change (2 ^ 25) with (2 * 2 ^ 24). lia. }
  pose proof (Zdigits2_nonneg r) as Hdr0.
  set (e2 := Z.max e1 (Z.max (Zdigits2 r + e1 - 24) (-149))).
  destruct (Z.eq_dec r 0) as [Hr0 | Hr0].
  { rewrite Hr0. rewrite Z.div_0_l by (apply Z.pow_nonzero; unfold e2; lia).
    cbn. rewrite Z.shiftl_0_l. reflexivity. }
  assert (Hrpos : 0 < r) by lia.
  destruct (Z_le_gt_dec (Zdigits2 r) 24) as [Hle | Hgt].
  - assert (He2 : e2 = e1) by (unfold e2; lia).
    rewrite He2, Z.sub_diag, Z.pow_0_r, Z.div_1_r.
    destruct r as [|p|p]; try lia.
    destruct (e1 <=? Float32.emax - Float32.prec); [|exact I].
    reflexivity.
  - assert (Hd25 : Zdigits2 r = 25) by lia.
    assert (Hr24 : r = 2 ^ 24).
    { pose proof (Zdigits2_pos_ge r Hrpos) as Hge. rewrite Hd25 in Hge.
      change (2 ^ (25 - 1)) with (2 ^ 24) in Hge. lia. }
    assert (He2 : e2 = e1 + 1) by (unfold e2; lia).
    rewrite He2. replace (e1 + 1 - e1) with 1 by lia. rewrite Hr24.
    change (2 ^ 24 / 2 ^ 1) with 8388608.
    destruct (e1 + 1 <=? Float32.emax - Float32.prec); [|exact I].
    cbn [Float32.trunc cond_Zopp]. f_equal.
    change 8388608 with (Z.shiftl 1 23). change (2 ^ 24) with (Z.shiftl 1 24).
    destruct (Z_le_gt_dec 0 e1) as [Hp | Hn].
    + rewrite (Z.shiftl_shiftl 1 23 (e1 + 1)), (Z.shiftl_shiftl 1 24 e1) by lia.
      f_equal. lia.
    + rewrite !Z.shiftl_1_l.
      rewrite !Z.shiftl_div_pow2 by lia.
      replace (- (e1 + 1)) with (- e1 - 1) by lia.
      destruct (Z_le_gt_dec (- e1) 24) as [Hs | Hb].
      * assert (H1 : 2 ^ 23 = 2 ^ (24 - - e1) * 2 ^ (- e1 - 1))
          by (rewrite <- Z.pow_add_r by lia; f_equal; lia).
        assert (H2 : 2 ^ 24 = 2 ^ (24 - - e1) * 2 ^ (- e1))
          by (rewrite <- Z.pow_add_r by lia; f_equal; lia).
        rewrite H1, H2, !Z.div_mul by (apply Z.pow_nonzero; lia). reflexivity.
      * rewrite !Z.div_small; [reflexivity| |].
        -- split; [apply Z.pow_nonneg; lia|]. apply Z.pow_lt_mono_r; lia.
        -- split; [apply Z.pow_nonneg; lia|]. apply Z.pow_lt_mono_r; lia.
Qed.

(** Rounding the positive dyadic [M * 2^E] to binary32: the mantissa is
    cut at the exponent [e1] of the format and moved up by at most one. *)
Lemma round32_trunc (M : positive) (E : Z) :
  let e1 := Z.max E (Z.max (Zpos (digits2_pos M) + E - 24) (-149)) in
  let m1 := Zpos M / 2 ^ (e1 - E) in
  exists r, m1 <= r <= m1 + 1 /\ r <= 2 ^ 24 /\
    match binary_round_aux Float32.prec Float32.emax false (Zpos M) E loc_Exact with
    | S754_infinity _ => True
    | S754_nan => False
    | x => Float32.trunc x = Some (Z.shiftl r e1)
    end.
Proof.
  intros e1 m1. destruct (round32_trunc_exact M E) as [H1 H2].
  exists (round_half_even (Zpos M) (e1 - E)).
  split; [apply round_half_even_range|]. split; [exact H1|exact H2].
Qed.

Lemma positive_product_shape (m : positive) (e : Z) :
  -149 <= e <= -23 -> Zpos m <= 2 ^ (- e) ->
  let E := e + -14 in
  let e1 := Z.max E (Z.max (Zpos (digits2_pos (m * 16384000)) + E - 24) (-149)) in
  E <= e1 <= -14 /\
  Zpos (m * 16384000) / 2 ^ (e1 - E) / 2 ^ (- e1) = Zpos m * 1000 / 2 ^ (- e).
Proof.
  intros He Hm E e1.
  set (M := Zpos (m * 16384000)).
  assert (HM : M <= 1000 * 2 ^ (- E)).
  { unfold M, E. rewrite Pos2Z.inj_mul.
    replace (- (e + -14)) with (14 + - e) by lia.
    rewrite Z.pow_add_r by lia. change (2 ^ 14) with 16384. lia. }
  assert (HE : 0 < 2 ^ (- E)) by (apply Z.pow_pos_nonneg; unfold E; lia).
  assert (HdM : Zpos (digits2_pos (m * 16384000)) + E <= 10).
  { assert (H0 : 0 <= M < 2 ^ (10 - E)).
    { split; [unfold M; lia|].
      replace (10 - E) with (10 + - E) by lia.
      rewrite Z.pow_add_r by (unfold E; lia). change (2 ^ 10) with 1024. lia. }
    pose proof (Zdigits2_le M (10 - E) ltac:(unfold E; lia) H0) as H.
    unfold M in H. cbn [Zdigits2] in H. lia. }
  assert (He1 : E <= e1 <= -14) by (unfold e1, E in *; lia).
  split; [exact He1|].
  assert (HK1 : 0 < 2 ^ (e1 - E)) by (apply Z.pow_pos_nonneg; lia).
  assert (HK2 : 0 < 2 ^ (- e1)) by (apply Z.pow_pos_nonneg; lia).
  rewrite Z.div_div by lia.
  rewrite <- Z.pow_add_r by lia.
  replace (e1 - E + - e1) with (14 + - e) by (unfold E; lia).
  rewrite Z.pow_add_r by lia. change (2 ^ 14) with 16384.
  unfold M. rewrite Pos2Z.inj_mul.
  replace (Zpos m * 16384000) with (Zpos m * 1000 * 16384) by lia.
  rewrite (Z.mul_comm 16384).
  apply Z.div_mul_cancel_r; [|lia].
  apply Z.pow_nonzero; lia.
Qed.

(** X9. The value stored for a fraction of [[0,1]] is the integer part
    of the exact product [fraction * 1000], or that plus one (the latter
    when the single-precision product rounds up onto the next integer),
    clamped into [[1,999]]. *)
Theorem progress_within_one_of_exact (f : Float32.float) (q : Q) (w : World) :
  Float32.valid f = true ->
  Float32.in_unit_interval f = true ->
  Float32.to_Q f = Some q ->
  exists v,
    updateProgress f w = Some (clamp 1 999 v, set_counter (clamp 1 999 v) w) /\
    Qfloor (q * (1000 # 1)) <= v <= Qfloor (q * (1000 # 1)) + 1.
Proof.
  intros Hv Hu Hq.
  destruct (unit_interval_static_cast f Hv Hu) as [v [_ Hc]].
  exists v. split; [apply updateProgress_eq; exact Hc|].
  destruct f as [s|s| |s m e]; try discriminate Hq.
  - injection Hq as <-. destruct s; cbn in Hc; injection Hc as <-; cbn; lia.
  - destruct (unit_interval_finite s m e Hv Hu) as [-> [He Hm]].
    destruct (positive_product_shape m e He Hm) as [He1 Hex].
    cbv zeta in He1, Hex.
    destruct (round32_trunc (m * 16384000) (e + -14)) as (r & Hr & _ & Ht).
    cbv zeta in Hr, Ht.
    set (e1 := Z.max (e + -14)
                 (Z.max (Zpos (digits2_pos (m * 16384000)) + (e + -14) - 24) (-149))) in *.
    set (m1 := Zpos (m * 16384000) / 2 ^ (e1 - (e + -14))) in *.
    unfold Float32.static_cast_int, Float32.mul, SFmul, Float32.f1000 in Hc.
    cbn [xorb] in Hc.
    assert (Hvr : v = Z.shiftl r e1).
    { destruct (binary_round_aux Float32.prec Float32.emax false
                  (Zpos (m * 16384000)) (e + -14) loc_Exact) as [s0|s0| |s0 m0 e0];
        try discriminate Hc; try contradiction;
        rewrite Ht in Hc; destruct (Int.in_range (Z.shiftl r e1)); congruence. }
    rewrite Z.shiftl_div_pow2 in Hvr by lia.
    assert (HP : 0 < 2 ^ (- e1)) by (apply Z.pow_pos_nonneg; lia).
    assert (Hfloor : Qfloor (q * (1000 # 1)) = m1 / 2 ^ (- e1)).
    { rewrite Hex. destruct e as [|p|p]; try lia.
      cbn in Hq. injection Hq as <-.
      unfold Qfloor, Qmult. cbn [Qnum Qden].
      rewrite Pos.mul_1_r, Pos2Z.inj_pow. reflexivity. }
    rewrite Hfloor, Hvr. split.
    + apply Z.div_le_mono; lia.
    + assert (H1 : (m1 + 1) / 2 ^ (- e1) <= (m1 + 1 * 2 ^ (- e1)) / 2 ^ (- e1))
        by (apply Z.div_le_mono; lia).
      rewrite Z.div_add in H1 by lia.
      assert (H2 : r / 2 ^ (- e1) <= (m1 + 1) / 2 ^ (- e1)) by (apply Z.div_le_mono; lia).
      lia.
Qed.

Lemma progress_within_one_of_exact_witness :
  Float32.valid fraction_1_512 = true /\
  Float32.in_unit_interval fraction_1_512 = true /\
  Float32.to_Q fraction_1_512 = Some (8388608 # 4294967296) /\
  exists v,
    updateProgress fraction_1_512 fresh_watcher
      = Some (clamp 1 999 v, set_counter (clamp 1 999 v) fresh_watcher) /\
    Qfloor ((8388608 # 4294967296) * (1000 # 1)) <= v
      <= Qfloor ((8388608 # 4294967296) * (1000 # 1)) + 1.
Proof.
  split; [reflexivity|]. split; [reflexivity|]. split; [reflexivity|].
  exact (progress_within_one_of_exact fraction_1_512 (8388608 # 4294967296) fresh_watcher
           eq_refl eq_refl eq_refl).
Defined.

Lemma binary_round_aux_sign prec emax s M E l :
  binary_round_aux prec emax s M E l =
    match binary_round_aux prec emax false M E l with
    | S754_zero _ => S754_zero s
    | S754_infinity _ => S754_infinity s
    | S754_nan => S754_nan
    | S754_finite _ m e => S754_finite s m e
    end.
Proof.
  unfold binary_round_aux.
  destruct (shr_fexp prec emax M E l) as [mrs1 e1].
  destruct (shr_fexp prec emax _ e1 loc_Exact) as [mrs2 e2].
  destruct (shr_m mrs2); [reflexivity| |reflexivity].
  destruct (e2 <=? emax - prec); reflexivity.
Qed.

Lemma trunc_nonpositive (f : Float32.float) v :
  Float32.leb f Float32.zero = true ->
  Float32.trunc (Float32.mul f Float32.f1000) = Some v ->
  v <= 0.
Proof.
  intros Hle Ht.
  destruct f as [s|s| |s m e]; try discriminate Hle.
  - destruct s; cbn in Ht; injection Ht as <-; lia.
  - destruct s; [discriminate Ht|discriminate Hle].
  - destruct s; [|discriminate Hle].
    unfold Float32.mul, SFmul, Float32.f1000 in Ht. cbn [xorb] in Ht.
    rewrite binary_round_aux_sign in Ht.
    destruct (binary_round_aux Float32.prec Float32.emax false
                (Zpos (m * 16384000)) (e + -14) loc_Exact) as [s0|s0| |s0 m0 e0];
      try discriminate Ht.
    + injection Ht as <-. lia.
    + cbn in Ht. injection Ht as <-.
      assert (0 <= Z.shiftl (Zpos m0) e0) by (apply Z.shiftl_nonneg; lia). lia.
Qed.

Lemma at_least_one_finite m e :
  Float32.valid (S754_finite false m e) = true ->
  Float32.leb Float32.one (S754_finite false m e) = true ->
  -23 <= e /\ 2 ^ 23 <= Zpos m < 2 ^ 24.
Proof.
  unfold Float32.valid, valid_binary, bounded, canonical_mantissa.
  rewrite fexp32. intros Hv Hle.
  apply andb_prop in Hv as [Hc _]. apply Z.eqb_eq in Hc.
  unfold Float32.leb, SFleb, SFcompare, Float32.one in Hle.
  pose proof (Zdigits2_lt m) as Hd. pose proof (Zdigits2_ge m) as Hd'.
  change (Pos.compare_cont Eq 8388608 m) with (Pos.compare 8388608 m) in Hle.
  destruct (Z.compare_spec (-23) e) as [He|He|He]; try discriminate Hle.
  - subst e. split; [lia|].
    destruct (Pos.compare_spec 8388608 m) as [Hm|Hm|Hm]; try discriminate Hle.
    + subst m. split; [reflexivity|]. reflexivity.
    + assert (Hd24 : Zpos (digits2_pos m) = 24) by lia.
      rewrite Hd24 in Hd. change (2 ^ 23) with 8388608. lia.
  - split; [lia|].
    assert (Hd24 : Zpos (digits2_pos m) = 24) by lia.
    rewrite Hd24 in Hd, Hd'. change (2 ^ (24 - 1)) with (2 ^ 23) in Hd'. lia.
Qed.

Lemma trunc_at_least_1000 m e v :
  -23 <= e -> 2 ^ 23 <= Zpos m < 2 ^ 24 ->
  Float32.trunc (Float32.mul (S754_finite false m e) Float32.f1000) = Some v ->
  1000 <= v.
Proof.
  intros He Hm Ht.
  unfold Float32.mul, SFmul, Float32.f1000 in Ht. cbn [xorb] in Ht.
  destruct (round32_trunc (m * 16384000) (e + -14)) as (r & Hr & _ & Hres).
  cbv zeta in Hr, Hres.
  set (E := e + -14) in *.
  set (M := Zpos (m * 16384000)) in *.
  pose proof (Zdigits2_lt (m * 16384000)) as HdM.
  pose proof (Zdigits2_ge (m * 16384000)) as HdM'.
  fold M in HdM, HdM'.
  set (d := Zpos (digits2_pos (m * 16384000))) in *.
  assert (HMlo : 2 ^ 46 <= M).
  { unfold M. rewrite Pos2Z.inj_mul. change (2 ^ 46) with (2 ^ 23 * 8388608). lia. }
  assert (Hd47 : 47 <= d).
  { assert (H : 2 ^ 46 < 2 ^ d) by lia.
    apply Z.pow_lt_mono_r_iff in H; unfold d; lia. }
  set (e1 := Z.max E (Z.max (d + E - 24) (-149))) in *.
  assert (He1 : e1 = d + E - 24) by (unfold e1, E; lia).
  assert (Hk : e1 - E = d - 24) by lia.
  rewrite Hk in Hr.
  assert (HK : 0 < 2 ^ (d - 24)) by (apply Z.pow_pos_nonneg; lia).
  assert (Hm1 : 2 ^ 23 <= M / 2 ^ (d - 24)).
  { apply Z.div_le_lower_bound; [exact HK|].
    rewrite <- Z.pow_add_r by lia.
    replace (d - 24 + 23) with (d - 1) by lia. exact HdM'. }
  assert (Hv : v = Z.shiftl r e1).
  { destruct (binary_round_aux Float32.prec Float32.emax false M E loc_Exact)
      as [s0|s0| |s0 m0 e0]; try discriminate Ht; try contradiction; congruence. }
  subst v.
  destruct (Z_le_gt_dec 0 e1) as [Hpos | Hneg].
  - rewrite Z.shiftl_mul_pow2 by lia.
    assert (0 < 2 ^ e1) by (apply Z.pow_pos_nonneg; lia).
    change (2 ^ 23) with 8388608 in Hm1. nia.
  - rewrite Z.shiftl_div_pow2 by lia.
    assert (HP : 0 < 2 ^ (- e1)) by (apply Z.pow_pos_nonneg; lia).
    apply Z.div_le_lower_bound; [exact HP|].
    eapply Z.le_trans; [|apply Hr].
    apply Z.div_le_lower_bound; [exact HK|].
    replace (2 ^ (d - 24) * (2 ^ (- e1) * 1000)) with (1000 * 2 ^ (d - 24 + - e1))
      by (rewrite Z.pow_add_r by lia; ring).
    replace (d - 24 + - e1) with (14 + - e) by (unfold E in *; lia).
    assert (He0 : e <= 0) by (unfold E in *; lia).
    rewrite Z.pow_add_r by lia. change (2 ^ 14) with 16384.
    unfold M. rewrite Pos2Z.inj_mul.
    assert (Hpe : 2 ^ (- e) <= 2 ^ 23) by (apply Z.pow_le_mono_r; lia).
    assert (0 < 2 ^ (- e)) by (apply Z.pow_pos_nonneg; lia).
    nia.
Qed.

(** X10. Fractions outside [[0,1]] saturate. Whenever the conversion to
    [int] is defined, a fraction that is zero or negative sets the
    progress value to 1 and a binary32 fraction of at least [1.0f] sets
    it to 999: a [Progress] event never reaches the reserved values 0 and
    1000. *)
Theorem out_of_range_fractions_saturate (f : Float32.float) (v : Z) (w : World) :
  Float32.static_cast_int (Float32.mul f Float32.f1000) = Some v ->
  (Float32.leb f Float32.zero = true ->
     updateProgress f w = Some (1, set_counter 1 w)) /\
  (Float32.valid f = true -> Float32.leb Float32.one f = true ->
     updateProgress f w = Some (999, set_counter 999 w)).
Proof.
  intros Hc.
  assert (Ht : Float32.trunc (Float32.mul f Float32.f1000) = Some v).
  { unfold Float32.static_cast_int in Hc.
    destruct (Float32.trunc (Float32.mul f Float32.f1000)) as [z|]; [|discriminate].
    destruct (Int.in_range z); congruence. }
  rewrite (updateProgress_eq f w v Hc). split.
  - intros Hle. pose proof (trunc_nonpositive f v Hle Ht) as Hv.
    replace (clamp 1 999 v) with 1 by (unfold clamp; lia). reflexivity.
  - intros Hval Hle.
    assert (Hv : 1000 <= v).
    { destruct f as [s|s| |s m e]; try discriminate Hle.
      - destruct s; discriminate Ht.
      - destruct s; [discriminate Hle|].
        destruct (at_least_one_finite m e Hval Hle) as [He Hm].
        exact (trunc_at_least_1000 m e v He Hm Ht). }
    replace (clamp 1 999 v) with 999 by (unfold clamp; lia). reflexivity.
Qed.

Lemma out_of_range_fractions_saturate_witness :
  Float32.static_cast_int (Float32.mul (Float32.of_Z 3) Float32.f1000) = Some 3000 /\
  Float32.valid (Float32.of_Z 3) = true /\
  Float32.leb Float32.one (Float32.of_Z 3) = true /\
  updateProgress (Float32.of_Z 3) fresh_watcher = Some (999, set_counter 999 fresh_watcher) /\
  Float32.static_cast_int (Float32.mul (Float32.of_Z (-2)) Float32.f1000) = Some (-2000) /\
  Float32.leb (Float32.of_Z (-2)) Float32.zero = true /\
  updateProgress (Float32.of_Z (-2)) fresh_watcher = Some (1, set_counter 1 fresh_watcher).
Proof.
  split; [reflexivity|]. split; [reflexivity|]. split; [reflexivity|].
  split; [|split; [reflexivity|split; [reflexivity|]]].
  - apply (out_of_range_fractions_saturate (Float32.of_Z 3) 3000 fresh_watcher eq_refl);
      reflexivity.
  - apply (out_of_range_fractions_saturate (Float32.of_Z (-2)) (-2000) fresh_watcher eq_refl);
      reflexivity.
Defined.

(** ** Rounding is monotone *)

Lemma shiftl_scaled a e c :
  c <= 0 -> c <= e -> Z.shiftl a e = a * 2 ^ (e - c) / 2 ^ (- c).
Proof.
  intros Hc He.
  assert (Hpc : 0 < 2 ^ (- c)) by (apply Z.pow_pos_nonneg; lia).
  destruct (Z_le_gt_dec 0 e) as [Hpos | Hneg].
  - rewrite Z.shiftl_mul_pow2 by lia.
    replace (e - c) with (e + - c) by lia.
    rewrite Z.pow_add_r, Z.mul_assoc, Z.div_mul by lia. reflexivity.
  - rewrite Z.shiftl_div_pow2 by lia.
    replace (- c) with (- e + (e - c)) by lia.
    rewrite Z.pow_add_r by lia.
    rewrite Z.div_mul_cancel_r; [reflexivity| |];
      apply Z.pow_nonzero; lia.
Qed.

Lemma shiftl_le_scaled a ea b eb c :
  c <= ea -> c <= eb ->
  a * 2 ^ (ea - c) <= b * 2 ^ (eb - c) ->
  Z.shiftl a ea <= Z.shiftl b eb.
Proof.
  intros Ha Hb Hle.
  set (c' := Z.min c 0).
  rewrite (shiftl_scaled a ea c'), (shiftl_scaled b eb c') by (unfold c'; lia).
  apply Z.div_le_mono; [apply Z.pow_pos_nonneg; unfold c'; lia|].
  replace (ea - c') with ((ea - c) + (c - c')) by lia.
  replace (eb - c') with ((eb - c) + (c - c')) by lia.
  rewrite !Z.pow_add_r, !Z.mul_assoc by (unfold c'; lia).
  apply Z.mul_le_mono_nonneg_r; [apply Z.pow_nonneg; lia|exact Hle].
Qed.

Lemma round_half_even_monotone X p Y q :
  0 <= p -> 0 <= q -> 0 <= X ->
  X * 2 ^ q <= Y * 2 ^ p ->
  round_half_even X p <= round_half_even Y q.
Proof.
  intros Hp Hq HX Hle.
  set (P := 2 ^ p) in *. set (Q := 2 ^ q) in *.
  assert (HP : 0 < P) by (apply Z.pow_pos_nonneg; lia).
  assert (HQ : 0 < Q) by (apply Z.pow_pos_nonneg; lia).
  pose proof (Z.div_mod X P ltac:(lia)) as HXd.
  pose proof (Z.div_mod Y Q ltac:(lia)) as HYd.
  pose proof (Z.mod_pos_bound X P HP) as HXr.
  pose proof (Z.mod_pos_bound Y Q HQ) as HYr.
  pose proof (round_half_even_range X p) as Rx.
  pose proof (round_half_even_range Y q) as Ry.
  fold P in Rx. fold Q in Ry.
  assert (Hm : X / P <= Y / Q).
  { apply Z.div_le_lower_bound; [exact HQ|].
    assert (H1 : P * (Q * (X / P)) <= P * Y) by nia.
    apply Z.mul_le_mono_pos_l in H1; assumption. }
  destruct (Z_lt_le_dec (X / P) (Y / Q)) as [Hlt | Hge]; [lia|].
  assert (Heq : X / P = Y / Q) by lia.
  assert (Hrem : (X mod P) * Q <= (Y mod Q) * P) by nia.
  unfold round_half_even. fold P Q. rewrite <- Heq.
  set (rx := X mod P) in *. set (ry := Y mod Q) in *.
  destruct ((P <? 2 * rx) || ((2 * rx =? P) && Z.odd (X / P))) eqn:Hux; [|
    destruct ((Q <? 2 * ry) || ((2 * ry =? Q) && Z.odd (X / P))); lia].
  assert (Huy : (Q <? 2 * ry) || ((2 * ry =? Q) && Z.odd (X / P)) = true); [|rewrite Huy; lia].
  apply orb_true_iff in Hux as [Hux | Hux].
  - apply Z.ltb_lt in Hux. apply orb_true_iff. left. apply Z.ltb_lt. nia.
  - apply andb_prop in Hux as [Hux Hodd]. apply Z.eqb_eq in Hux.
    apply orb_true_iff.
    destruct (Z_lt_le_dec Q (2 * ry)) as [H1 | H1]; [left; apply Z.ltb_lt; exact H1|].
    right. rewrite Hodd, andb_true_r. apply Z.eqb_eq. nia.
Qed.

Lemma round32_monotone (Mx My : positive) (Ex Ey E0 : Z) :
  E0 <= Ex -> E0 <= Ey ->
  2 ^ 23 <= Zpos Mx -> 2 ^ 23 <= Zpos My ->
  Zpos Mx * 2 ^ (Ex - E0) <= Zpos My * 2 ^ (Ey - E0) ->
  let e1x := Z.max Ex (Z.max (Zpos (digits2_pos Mx) + Ex - 24) (-149)) in
  let e1y := Z.max Ey (Z.max (Zpos (digits2_pos My) + Ey - 24) (-149)) in
  Z.shiftl (round_half_even (Zpos Mx) (e1x - Ex)) e1x
    <= Z.shiftl (round_half_even (Zpos My) (e1y - Ey)) e1y.
Proof.
  intros HEx HEy HMx HMy Hle e1x e1y.
  pose proof (Zdigits2_lt Mx) as Hdx. pose proof (Zdigits2_ge Mx) as Hdx'.
  pose proof (Zdigits2_lt My) as Hdy. pose proof (Zdigits2_ge My) as Hdy'.
  set (dx := Zpos (digits2_pos Mx)) in *. set (dy := Zpos (digits2_pos My)) in *.
  assert (Hdx24 : 24 <= dx).
  { assert (H : 2 ^ 23 < 2 ^ dx) by lia. apply Z.pow_lt_mono_r_iff in H; unfold dx; lia. }
  assert (Hdy24 : 24 <= dy).
  { assert (H : 2 ^ 23 < 2 ^ dy) by lia. apply Z.pow_lt_mono_r_iff in H; unfold dy; lia. }
  assert (Hmag : dx + Ex <= dy + Ey).
  { assert (H : 2 ^ (dx - 1 + (Ex - E0)) < 2 ^ (dy + (Ey - E0))).
    { rewrite !Z.pow_add_r by lia.
      assert (0 < 2 ^ (Ex - E0)) by (apply Z.pow_pos_nonneg; lia).
      assert (0 < 2 ^ (Ey - E0)) by (apply Z.pow_pos_nonneg; lia).
      nia. }
    apply Z.pow_lt_mono_r_iff in H; lia. }
  assert (He1x : e1x = Z.max (dx + Ex - 24) (-149)) by (unfold e1x; lia).
  assert (He1y : e1y = Z.max (dy + Ey - 24) (-149)) by (unfold e1y; lia).
  assert (Hkx : 0 <= e1x - Ex) by lia.
  assert (Hky : 0 <= e1y - Ey) by lia.
  pose proof (round_half_even_range (Zpos Mx) (e1x - Ex)) as Rx.
  pose proof (round_half_even_range (Zpos My) (e1y - Ey)) as Ry.
  set (rx := round_half_even (Zpos Mx) (e1x - Ex)) in *.
  set (ry := round_half_even (Zpos My) (e1y - Ey)) in *.
  apply (shiftl_le_scaled rx e1x ry e1y E0); [lia|lia|].
  destruct (Z_lt_le_dec e1x e1y) as [Hlt | Hge].
  - (* the larger number lies in a higher binade *)
    assert (He1y' : e1y = dy + Ey - 24) by lia.
    assert (Hrx : rx <= 2 ^ 24).
    { assert (Zpos Mx / 2 ^ (e1x - Ex) < 2 ^ 24); [|lia].
      apply Z.div_lt_upper_bound; [apply Z.pow_pos_nonneg; lia|].
      eapply Z.lt_le_trans; [exact Hdx|].
      rewrite <- Z.pow_add_r by lia. apply Z.pow_le_mono_r; lia. }
    assert (Hry : 2 ^ 23 <= ry).
    { assert (2 ^ 23 <= Zpos My / 2 ^ (e1y - Ey)); [|lia].
      apply Z.div_le_lower_bound; [apply Z.pow_pos_nonneg; lia|].
      rewrite <- Z.pow_add_r by lia.
      replace (e1y - Ey + 23) with (dy - 1) by lia. exact Hdy'. }
    assert (Hpow : 2 * 2 ^ (e1x - E0) <= 2 ^ (e1y - E0)).
    { rewrite <- Z.pow_succ_r by lia. apply Z.pow_le_mono_r; lia. }
    assert (0 < 2 ^ (e1x - E0)) by (apply Z.pow_pos_nonneg; lia).
    change (2 ^ 24) with (2 * 2 ^ 23) in Hrx.
    assert (0 < 2 ^ 23) by reflexivity.
    nia.
  - (* same exponent after rounding *)
    assert (Heq : e1x = e1y) by lia.
    rewrite <- Heq. apply Z.mul_le_mono_nonneg_r; [apply Z.pow_nonneg; lia|].
    unfold rx, ry. apply round_half_even_monotone; try lia.
    rewrite <- Heq.
    assert (HC : 2 ^ (Ex - E0) * 2 ^ (e1x - Ex) = 2 ^ (Ey - E0) * 2 ^ (e1x - Ey)).
    { rewrite <- !Z.pow_add_r by lia. f_equal. lia. }
    assert (Ha : 0 < 2 ^ (Ex - E0)) by (apply Z.pow_pos_nonneg; lia).
    assert (Hb : 0 < 2 ^ (Ey - E0)) by (apply Z.pow_pos_nonneg; lia).
    assert (Hp : 0 < 2 ^ (e1x - Ex)) by (apply Z.pow_pos_nonneg; lia).
    assert (Hq : 0 < 2 ^ (e1x - Ey)) by (apply Z.pow_pos_nonneg; lia).
    set (a := 2 ^ (Ex - E0)) in *. set (b := 2 ^ (Ey - E0)) in *.
    set (p := 2 ^ (e1x - Ex)) in *. set (q := 2 ^ (e1x - Ey)) in *.
    assert (H1 : (a * p) * (Zpos Mx * q) <= (a * p) * (Zpos My * p)).
    { replace (a * p * (Zpos Mx * q)) with ((Zpos Mx * a) * (p * q)) by ring.
      replace (a * p * (Zpos My * p)) with ((Zpos My * b) * (p * q))
        by (rewrite HC; ring).
      apply Z.mul_le_mono_nonneg_r; [nia|exact Hle]. }
    apply Z.mul_le_mono_pos_l in H1; [exact H1|nia].
Qed.

Lemma valid_finite_shape s m e :
  Float32.valid (S754_finite s m e) = true ->
  -149 <= e /\ Zpos m < 2 ^ 24 /\ (-149 < e -> 2 ^ 23 <= Zpos m).
Proof.
  unfold Float32.valid, valid_binary, bounded, canonical_mantissa.
  rewrite fexp32. intros Hv.
  apply andb_prop in Hv as [Hc _]. apply Z.eqb_eq in Hc.
  pose proof (Zdigits2_lt m) as Hd. pose proof (Zdigits2_ge m) as Hd'.
  split; [lia|]. split.
  - eapply Z.lt_le_trans; [exact Hd|]. apply Z.pow_le_mono_r; lia.
  - intros He. assert (H24 : Zpos (digits2_pos m) = 24) by lia.
    rewrite H24 in Hd'. exact Hd'.
Qed.

Lemma trunc_product_round m e v :
  Float32.trunc (Float32.mul (S754_finite false m e) Float32.f1000) = Some v ->
  v = Z.shiftl
        (round_half_even (Zpos (m * 16384000))
           (Z.max (e + -14)
              (Z.max (Zpos (digits2_pos (m * 16384000)) + (e + -14) - 24) (-149))
            - (e + -14)))
        (Z.max (e + -14)
           (Z.max (Zpos (digits2_pos (m * 16384000)) + (e + -14) - 24) (-149))).
Proof.
  intros Ht. unfold Float32.mul, SFmul, Float32.f1000 in Ht. cbn [xorb] in Ht.
  destruct (round32_trunc_exact (m * 16384000) (e + -14)) as [_ Hres].
  cbv zeta in Hres.
  destruct (binary_round_aux Float32.prec Float32.emax false
              (Zpos (m * 16384000)) (e + -14) loc_Exact) as [s0|s0| |s0 m0 e0];
    try discriminate Ht; try contradiction; congruence.
Qed.

Lemma static_cast_trunc f v :
  Float32.static_cast_int f = Some v -> Float32.trunc f = Some v.
Proof.
  unfold Float32.static_cast_int.
  destruct (Float32.trunc f) as [z|]; [|discriminate].
  destruct (Int.in_range z); congruence.
Qed.

Lemma trunc_nonnegative (g : Float32.float) v :
  Float32.leb Float32.zero g = true ->
  Float32.trunc (Float32.mul g Float32.f1000) = Some v ->
  0 <= v.
Proof.
  intros Hle Ht.
  destruct g as [s|s| |s m e]; try discriminate Hle.
  - destruct s; cbn in Ht; injection Ht as <-; lia.
  - destruct s; [discriminate Hle|discriminate Ht].
  - destruct s; [discriminate Hle|].
    rewrite (trunc_product_round m e v Ht).
    apply Z.shiftl_nonneg.
    match goal with
    | |- 0 <= round_half_even ?a ?k =>
        pose proof (round_half_even_range a k) as Hr;
        assert (0 <= a / 2 ^ k) by (apply Z.div_pos; [lia|apply Z.pow_pos_nonneg; lia])
    end.
    lia.
Qed.

(** X11. The normalisation is monotone in the fraction: for binary32
    fractions [0 <= f <= g] whose conversions are defined, the value
    [updateProgress] stores for [f] is at most the one it stores for [g].
    A source whose fractions never decrease never moves progress
    backwards through its [Progress] events. *)
Theorem progress_monotone_in_fraction (f g : Float32.float) (w1 w2 : World) :
  Float32.valid f = true -> Float32.valid g = true ->
  Float32.leb Float32.zero f = true ->
  Float32.leb f g = true ->
  event_defined (Sig_filterProgress f) = true ->
  event_defined (Sig_filterProgress g) = true ->
  exists pf pg,
    updateProgress f w1 = Some (pf, set_counter pf w1) /\
    updateProgress g w2 = Some (pg, set_counter pg w2) /\
    pf <= pg.
Proof.
  intros Hvf Hvg H0 Hle Hdf Hdg. cbn [event_defined] in Hdf, Hdg.
  destruct (Float32.static_cast_int (Float32.mul f Float32.f1000)) as [vf|] eqn:Hcf;
    [|discriminate].
  destruct (Float32.static_cast_int (Float32.mul g Float32.f1000)) as [vg|] eqn:Hcg;
    [|discriminate].
  exists (clamp 1 999 vf), (clamp 1 999 vg).
  split; [apply updateProgress_eq; exact Hcf|].
  split; [apply updateProgress_eq; exact Hcg|].
  assert (Hv : vf <= vg); [|unfold clamp; lia].
  apply static_cast_trunc in Hcf, Hcg.
  destruct f as [sf|sf| |sf mf ef]; try discriminate H0.
  - (* f is a zero *)
    assert (vf = 0) as -> by (destruct sf; cbn in Hcf; congruence).
    apply (trunc_nonnegative g vg); [|exact Hcg].
    destruct g as [sg|sg| |sg mg eg]; try discriminate Hle; try reflexivity.
    + destruct sg; [discriminate Hle|reflexivity].
    + destruct sg; [discriminate Hle|reflexivity].
  - destruct sf; [discriminate H0|discriminate Hcf].
  - destruct sf; [discriminate H0|].
    destruct g as [sg|sg| |sg mg eg]; try discriminate Hle.
    + destruct sg; [discriminate Hle|discriminate Hcg].
    + destruct sg; [discriminate Hle|].
      rewrite (trunc_product_round mf ef vf Hcf), (trunc_product_round mg eg vg Hcg).
      destruct (valid_finite_shape false mf ef Hvf) as (Hef & Hmf & _).
      destruct (valid_finite_shape false mg eg Hvg) as (Heg & Hmg & Hng).
      assert (Hord : ef < eg \/ (ef = eg /\ Zpos mf <= Zpos mg)).
      { unfold Float32.leb, SFleb, SFcompare in Hle.
        change (Pos.compare_cont Eq mf mg) with (Pos.compare mf mg) in Hle.
        destruct (Z.compare_spec ef eg) as [He|He|He]; try discriminate Hle.
        - right. split; [exact He|].
          destruct (Pos.compare_spec mf mg) as [Hm|Hm|Hm]; try discriminate Hle; lia.
        - left. exact He. }
      apply (round32_monotone (mf * 16384000) (mg * 16384000)
               (ef + -14) (eg + -14) (ef + -14)).
      * lia.
      * lia.
      * rewrite Pos2Z.inj_mul. change (2 ^ 23) with 8388608. lia.
      * rewrite Pos2Z.inj_mul. change (2 ^ 23) with 8388608. lia.
      * rewrite Z.sub_diag, Z.pow_0_r, Z.mul_1_r, !Pos2Z.inj_mul.
        replace (eg + -14 - (ef + -14)) with (eg - ef) by lia.
        destruct Hord as [Hlt | [Heq Hm]].
        -- specialize (Hng ltac:(lia)).
           assert (Hp : 2 * 1 <= 2 ^ (eg - ef)).
           { change (2 * 1) with (2 ^ 1). apply Z.pow_le_mono_r; lia. }
           change (2 ^ 24) with (2 * 2 ^ 23) in Hmf. nia.
        -- subst eg. rewrite Z.sub_diag, Z.pow_0_r. lia.
Qed.

Lemma progress_monotone_in_fraction_witness :
  Float32.valid (Float32.dyadic 1 2) = true /\
  Float32.valid (Float32.dyadic 1 1) = true /\
  Float32.leb Float32.zero (Float32.dyadic 1 2) = true /\
  Float32.leb (Float32.dyadic 1 2) (Float32.dyadic 1 1) = true /\
  event_defined (Sig_filterProgress (Float32.dyadic 1 2)) = true /\
  event_defined (Sig_filterProgress (Float32.dyadic 1 1)) = true /\
  exists pf pg,
    updateProgress (Float32.dyadic 1 2) half_done = Some (pf, set_counter pf half_done) /\
    updateProgress (Float32.dyadic 1 1) fresh_watcher = Some (pg, set_counter pg fresh_watcher) /\
    pf <= pg.
Proof.
  repeat (split; [reflexivity|]).
  exact (progress_monotone_in_fraction (Float32.dyadic 1 2) (Float32.dyadic 1 1)
           half_done fresh_watcher eq_refl eq_refl eq_refl eq_refl eq_refl eq_refl).
Defined.
